(** * The single-select list prompt of [packages/cli/src/util/custom-input/select.ts]

    A shallow embedding of the prompt's selection engine: the item model and
    [isSelectable], the [bounds] and [defaultItemIndex] computations, the
    keypress handler with its do-while skip loop, the search-expiry timer and
    the help hint of the render function.

    JavaScript numbers that are used as array indices are modelled as [Z]
    (with [Z.rem] for the truncating [%]); strings are [String.string];
    a thrown exception or a loop that does not come back is an explicit
    [Outcome].  What the file imports from its host (strict equality and
    [String(...)] on the generic [Value], [toLowerCase], the theme) is an
    interface, [Host], for which the theorems hold at every instance. *)

From Stdlib Require Import List ZArith String Ascii Bool Lia.
Import ListNotations.
Local Open Scope string_scope.
Local Open Scope Z_scope.

Set Implicit Arguments.

(** ** Outcomes of fallible code *)

Inductive Error : Type :=
| ValidationError (msg : string)   (* thrown by [bounds] *)
| TypeError.                       (* property read on [undefined] *)

Inductive Outcome (A : Type) : Type :=
| Ok (a : A)
| Throw (e : Error)
| Diverge.                         (* the fuel of a loop ran out *)

Arguments Ok {A} a.
Arguments Throw {A} e.
Arguments Diverge {A}.

Definition bind {A B : Type} (m : Outcome A) (k : A -> Outcome B) : Outcome B :=
  match m with
  | Ok a => k a
  | Throw e => Throw e
  | Diverge => Diverge
  end.

Notation "x <- m ;; k" := (bind m (fun x => k))
  (at level 61, m at next level, right associativity).

(** ** Array primitives of the host language *)

(** [Array.prototype.findIndex]: the index of the first element satisfying
    the predicate, [-1] when there is none. *)
Fixpoint findIndexFrom {A : Type} (p : A -> bool) (l : list A) (i : Z) : Z :=
  match l with
  | [] => -1
  | x :: l' => if p x then i else findIndexFrom p l' (i + 1)
  end.

Definition findIndex {A : Type} (p : A -> bool) (l : list A) : Z :=
  findIndexFrom p l 0.

(** The same position counted in [nat]; used to reason about [findIndex]. *)
Fixpoint firstIndex {A : Type} (p : A -> bool) (l : list A) : option nat :=
  match l with
  | [] => None
  | x :: l' => if p x then Some O else option_map S (firstIndex p l')
  end.

(** [items[i]] for a number [i]: [None] stands for [undefined], which is what
    an index outside [0 .. length-1] reads. *)
Definition at_index {A : Type} (l : list A) (i : Z) : option A :=
  if i <? 0 then None else nth_error l (Z.to_nat i).

Definition len {A : Type} (l : list A) : Z := Z.of_nat (List.length l).

(** Truthiness of a string: only the empty string is falsy. *)
Definition truthy_string (s : string) : bool :=
  match s with
  | EmptyString => false
  | String _ _ => true
  end.

(** ** The host interface *)

(** The prompt is generic in [Value]; on values the source uses [===]
    (against [config.default]) and [String(...)], and [undefined] is what a
    missing property reads.  [toLowerCase] is the host's string method. *)
Class Host (Value : Type) : Type := {
  strict_equals : Value -> Value -> bool;
  to_String : Value -> string;
  undefined : Value;
  toLowerCase : string -> string;
  style_help : string -> string      (* [theme.style.help] *)
}.

(** ** Data model *)

(** Modelled from the spec: the classification of a raw key event, which the
    source obtains from the imported predicates [isEnterKey], [isUpKey],
    [isDownKey], [isNumberKey] and [isBackspaceKey]; the handler tests them in
    this order and treats every other key as a search key.  [KeyNumber n]
    carries [Number(key.name)]. *)
Inductive Key : Type :=
| KeyEnter
| KeyUp
| KeyDown
| KeyNumber (n : Z)
| KeyBackspace
| KeyOther.

(** A timer pending in the host: the handle [setTimeout] returned, its delay
    in milliseconds and its callback, which acts on the readline's line. *)
Record Timer : Type := {
  handle : nat;
  delay : Z;
  callback : string -> string
}.

Inductive Status : Type := pending | done.

(** [disabled?: boolean | string] *)
Inductive Disabled : Type :=
| DisabledFlag (b : bool)
| DisabledReason (s : string).

Definition truthy_disabled (d : option Disabled) : bool :=
  match d with
  | None => false
  | Some (DisabledFlag b) => b
  | Some (DisabledReason s) => truthy_string s
  end.

Section Model.

Variable Value : Type.
Context {host : Host Value}.

Record Choice : Type := {
  value : Value;
  name : option string;
  description : option string;
  disabled : option Disabled
}.

Inductive Item : Type :=
| Separator (separator : string)
| ChoiceItem (c : Choice).

Record SelectConfig : Type := {
  message : string;
  choices : list Item;
  pageSize : option Z;
  loop : option bool;
  default : option Value       (* [None]: no [default] key in the config *)
}.

(** [!Separator.isSeparator(item) && !item.disabled] *)
Definition isSelectable (item : Item) : bool :=
  match item with
  | Separator _ => false
  | ChoiceItem c => negb (truthy_disabled (disabled c))
  end.

(** Destructuring defaults: [loop = true, pageSize = 7]. *)
Definition loop_of (config : SelectConfig) : bool :=
  match loop config with Some b => b | None => true end.

Definition pageSize_of (config : SelectConfig) : Z :=
  match pageSize config with Some n => n | None => 7 end.

Record Bounds : Type := { first : Z; last : Z }.

Definition no_selectable_message : string :=
  "[select prompt] No selectable choices. All choices are disabled.".

Definition bounds (items : list Item) : Outcome Bounds :=
  let first := findIndex isSelectable items in
  let last := len items - 1 - findIndex isSelectable (rev items) in
  if first <? 0 then Throw (ValidationError no_selectable_message)
  else Ok {| first := first; last := last |}.

Definition defaultItemIndex (config : SelectConfig) : Z :=
  match default config with
  | None => -1
  | Some d =>
      findIndex
        (fun item =>
           match item with
           | Separator _ => false
           | ChoiceItem c => isSelectable item && strict_equals (value c) d
           end)
        (choices config)
  end.

(** *** The session: hook state, readline and host timers *)

Record Session : Type := {
  status : Status;                   (* [useState<Status>] *)
  active : Z;                        (* [useState] of the active index *)
  firstRender : bool;                (* [firstRender.current] *)
  searchTimeoutRef : option nat;     (* [searchTimeoutRef.current] *)
  line : string;                     (* [rl.line] *)
  timers : list Timer;               (* timers pending in the host *)
  nextHandle : nat;                  (* next handle [setTimeout] returns *)
  emitted : list Value;              (* arguments of the calls of [done] *)
  hints : list (option string)       (* [helpTip] of each render, in order *)
}.

Definition setStatus (st : Status) (s : Session) : Session :=
  {| status := st; active := active s; firstRender := firstRender s;
     searchTimeoutRef := searchTimeoutRef s; line := line s;
     timers := timers s; nextHandle := nextHandle s; emitted := emitted s;
     hints := hints s |}.

Definition setActive (i : Z) (s : Session) : Session :=
  {| status := status s; active := i; firstRender := firstRender s;
     searchTimeoutRef := searchTimeoutRef s; line := line s;
     timers := timers s; nextHandle := nextHandle s; emitted := emitted s;
     hints := hints s |}.

Definition setLine (l : string) (s : Session) : Session :=
  {| status := status s; active := active s; firstRender := firstRender s;
     searchTimeoutRef := searchTimeoutRef s; line := l;
     timers := timers s; nextHandle := nextHandle s; emitted := emitted s;
     hints := hints s |}.

(** [done(v)] *)
Definition emit (v : Value) (s : Session) : Session :=
  {| status := status s; active := active s; firstRender := firstRender s;
     searchTimeoutRef := searchTimeoutRef s; line := line s;
     timers := timers s; nextHandle := nextHandle s;
     emitted := emitted s ++ [v]; hints := hints s |}.

(** [rl.clearLine(0)] *)
Definition clearLine (s : Session) : Session := setLine "" s.

(** [clearTimeout(h)]: the timer of that handle, if it is still pending, is
    dropped; [undefined] and handles of timers that are gone do nothing. *)
Definition clearTimeout (h : option nat) (s : Session) : Session :=
  match h with
  | None => s
  | Some h =>
      {| status := status s; active := active s; firstRender := firstRender s;
         searchTimeoutRef := searchTimeoutRef s; line := line s;
         timers := filter (fun t => negb (Nat.eqb (handle t) h)) (timers s);
         nextHandle := nextHandle s; emitted := emitted s; hints := hints s |}
  end.

(** [searchTimeoutRef.current = setTimeout(cb, ms)] *)
Definition scheduleSearchTimeout (cb : string -> string) (ms : Z) (s : Session)
  : Session :=
  let h := nextHandle s in
  {| status := status s; active := active s; firstRender := firstRender s;
     searchTimeoutRef := Some h; line := line s;
     timers := timers s ++ [{| handle := h; delay := ms; callback := cb |}];
     nextHandle := S h; emitted := emitted s; hints := hints s |}.

(** [item.value]; a [Separator] has no such property. *)
Definition item_value (item : Item) : Value :=
  match item with
  | Separator _ => undefined
  | ChoiceItem c => value c
  end.

(** [String(item.name || item.value)] *)
Definition label (c : Choice) : string :=
  match name c with
  | Some n => if truthy_string n then n else to_String (value c)
  | None => to_String (value c)
  end.

(** *** The do-while skip loop of the Up/Down branch

    [do { next = (next + offset + items.length) % items.length }
     while (!isSelectable(items[next]))].
    [%] truncates towards zero, as [Z.rem] does; on the empty list it gives
    [NaN] and [Z.rem] its first argument, and both read [undefined] from the
    list.  [isSelectable(undefined)] throws on reading [disabled].  The result
    carries the number of times the body ran. *)
Definition advance (items : list Item) (offset next : Z) : Z :=
  Z.rem (next + offset + len items) (len items).

Fixpoint skip (fuel : nat) (items : list Item) (offset next : Z) (ran : nat)
  : Outcome (Z * nat) :=
  match fuel with
  | O => Diverge
  | S fuel' =>
      let next := advance items offset next in
      match at_index items next with
      | None => Throw TypeError
      | Some item =>
          if isSelectable item then Ok (next, S ran)
          else skip fuel' items offset next (S ran)
      end
  end.

(** The predicate of the search branch's [findIndex]. *)
Definition searchMatches (searchTerm : string) (item : Item) : bool :=
  match item with
  | Separator _ => false
  | ChoiceItem c =>
      if negb (isSelectable item) then false
      else String.prefix searchTerm (toLowerCase (label c))
  end.

(** *** The keypress handler *)

Definition keypress (fuel : nat) (config : SelectConfig) (b : Bounds)
    (key : Key) (s : Session) : Outcome Session :=
  let items := choices config in
  let s := clearTimeout (searchTimeoutRef s) s in
  match key with
  | KeyEnter =>
      match at_index items (active s) with
      | None => Throw TypeError
      | Some selectedChoice =>
          Ok (emit (item_value selectedChoice) (setStatus done s))
      end
  | KeyUp | KeyDown =>
      let isUp := match key with KeyUp => true | _ => false end in
      let s := clearLine s in
      if loop_of config
         || (isUp && negb (active s =? first b))
         || (negb isUp && negb (active s =? last b))
      then
        let offset := if isUp then -1 else 1 in
        r <- skip fuel items offset (active s) 0 ;;
        Ok (setActive (fst r) s)
      else Ok s
  | KeyNumber n =>
      let s := clearLine s in
      let position := n - 1 in
      match at_index items position with
      | Some item => if isSelectable item then Ok (setActive position s) else Ok s
      | None => Ok s
      end
  | KeyBackspace => Ok (clearLine s)
  | KeyOther =>
      let searchTerm := toLowerCase (line s) in
      let matchIndex := findIndex (searchMatches searchTerm) items in
      let s := if matchIndex >=? 0 then setActive matchIndex s else s in
      Ok (scheduleSearchTimeout (fun _ => "") 700 s)
  end.

(** *** The help hint of the render function

    [if (firstRender.current && items.length <= pageSize)
       { firstRender.current = false; helpTip = theme.style.help(...) }] *)
Definition helpTip (config : SelectConfig) (s : Session) : option string :=
  if firstRender s && (len (choices config) <=? pageSize_of config)
  then Some (style_help "(Use arrow keys)")
  else None.

Definition render (config : SelectConfig) (s : Session) : Session :=
  let tip := helpTip config s in
  {| status := status s; active := active s;
     firstRender := match tip with Some _ => false | None => firstRender s end;
     searchTimeoutRef := searchTimeoutRef s; line := line s;
     timers := timers s; nextHandle := nextHandle s; emitted := emitted s;
     hints := hints s ++ [tip] |}.

(** *** Construction: the hook state set up by the first run of the view *)

Definition construct (config : SelectConfig) : Outcome (Bounds * Session) :=
  b <- bounds (choices config) ;;
  let d := defaultItemIndex config in
  Ok (b, {| status := pending;
            active := if d =? -1 then first b else d;
            firstRender := true;
            searchTimeoutRef := None;
            line := "";
            timers := [];
            nextHandle := O;
            emitted := [];
            hints := [] |}).

(** *** The event loop of the host

    Modelled from the spec: the runtime delivers one event at a time and runs
    it to completion.  A key event reaches the handler after the readline has
    appended the characters the key typed to its line; a pending timer may
    fire, which removes it and runs its callback; the view may be rendered. *)
Inductive Event : Type :=
| Keypress (key : Key) (typed : string)
| TimerFires (h : nat)
| Render.

Definition fire (h : nat) (s : Session) : Session :=
  match find (fun t => Nat.eqb (handle t) h) (timers s) with
  | None => s
  | Some t =>
      {| status := status s; active := active s; firstRender := firstRender s;
         searchTimeoutRef := searchTimeoutRef s;
         line := callback t (line s);
         timers := filter (fun t => negb (Nat.eqb (handle t) h)) (timers s);
         nextHandle := nextHandle s; emitted := emitted s; hints := hints s |}
  end.

Definition step (fuel : nat) (config : SelectConfig) (b : Bounds)
    (e : Event) (s : Session) : Outcome Session :=
  match e with
  | Keypress key typed =>
      keypress fuel config b key (setLine (line s ++ typed) s)
  | TimerFires h => Ok (fire h s)
  | Render => Ok (render config s)
  end.

Fixpoint run (fuel : nat) (config : SelectConfig) (b : Bounds)
    (es : list Event) (s : Session) : Outcome Session :=
  match es with
  | [] => Ok s
  | e :: es' => s' <- step fuel config b e s ;; run fuel config b es' s'
  end.

(** *** Predicates of the specification *)

Definition hasSelectable (items : list Item) : bool :=
  existsb isSelectable items.

Definition selectableAt (items : list Item) (i : Z) : bool :=
  match at_index items i with
  | Some item => isSelectable item
  | None => false
  end.

(** The index [k] positions away from [start] in direction [offset], counted
    cyclically modulo the length of the list. *)
Definition reached (items : list Item) (offset start : Z) (k : nat) : Z :=
  (start + Z.of_nat k * offset) mod len items.

(** [isUpKey(key) ? -1 : 1] *)
Definition direction (key : Key) : Z :=
  match key with
  | KeyUp => -1
  | _ => 1
  end.

(** Index [i] holds a selectable choice whose label, lowered, starts with
    the lowered search term. *)
Definition labelMatchAt (items : list Item) (term : string) (i : Z) : Prop :=
  exists c, at_index items i = Some (ChoiceItem c) /\
            isSelectable (ChoiceItem c) = true /\
            String.prefix (toLowerCase term) (toLowerCase (label c)) = true.

(** Index [i] holds a selectable choice whose value is strictly equal to [d]. *)
Definition valueMatchAt (items : list Item) (d : Value) (i : Z) : Prop :=
  exists c, at_index items i = Some (ChoiceItem c) /\
            isSelectable (ChoiceItem c) = true /\
            strict_equals (value c) d = true.

(** The hint of the first render. *)
Definition firstHint (config : SelectConfig) : option string :=
  if len (choices config) <=? pageSize_of config
  then Some (style_help "(Use arrow keys)")
  else None.

(** Once the hint was shown, or when the list does not fit the page, no
    render shows it. *)
Definition hintSpent (config : SelectConfig) (s : Session) : Prop :=
  firstRender s = false \/ firstHint config = None.

Definition renders (es : list Event) : nat :=
  List.length (filter (fun e => match e with Render => true | _ => false end) es).

(** The timer the search branch schedules. *)
Definition isSearchTimer (t : Timer) : Prop :=
  delay t = 700 /\ forall l, callback t l = "".

(** At most one timer is pending; it is a search timer, the ref holds its
    handle, and the handle is older than the next one [setTimeout] returns. *)
Definition timersOwned (s : Session) : Prop :=
  timers s = [] \/
  exists t, timers s = [t] /\ searchTimeoutRef s = Some (handle t) /\
            (handle t < nextHandle s)%nat /\ isSearchTimer t.

End Model.

Arguments Separator {Value} separator.
Arguments isSelectable {Value} item.

(** ** The view: what the render function draws

    The terminal and theme collaborators of the render function: the result
    of [isUnicodeSupported()], the [chalk] colours, the styles of the resolved
    theme, [usePrefix], [ansiEscapes.cursorHide] and [usePagination], which
    gets the items, the active index, [renderItem], the page size and [loop].
    [usePagination] calls [renderItem] on what it reads from the list, which
    is [undefined] outside of it ([None] below), and it throws what
    [renderItem] throws: its result is an [Outcome]. *)
Class Terminal (Value : Type) : Type := {
  unicode : bool;
  chalk_cyan : string -> string;
  chalk_green : string -> string;
  chalk_gray : string -> string;
  style_message : string -> string;
  style_answer : string -> string;
  style_highlight : string -> string;
  style_disabled : string -> string;
  usePrefix : string;
  cursorHide : string;
  usePagination :
    list (Item Value) -> Z -> (option (Item Value) -> bool -> Outcome string) ->
    Z -> bool -> Outcome string
}.

Section View.

Variable Value : Type.
Context {host : Host Value} {terminal : Terminal Value}.

(** [const s = (c, fallback) => (unicode ? c : fallback)] *)
Definition glyph (c fallback : string) : string :=
  if unicode then c else fallback.

Definition S_STEP_ACTIVE : string := glyph "◆" "*".
Definition S_STEP_SUBMIT : string := glyph "◇" "o".
Definition S_BAR : string := glyph "│" "|".
Definition S_BAR_END : string := glyph "└" "—".
Definition S_RADIO_ACTIVE : string := glyph "●" ">".
Definition S_RADIO_INACTIVE : string := glyph "○" " ".

Definition symbol (state : Status) : string :=
  match state with
  | pending => chalk_cyan S_STEP_ACTIVE
  | done => chalk_green S_STEP_SUBMIT
  end.

(** The line feed of the template strings. *)
Definition newline : string := String (ascii_of_nat 10) EmptyString.

(** The [renderItem] callback given to [usePagination].  On [undefined]
    [Separator.isSeparator] answers false and reading [item.name] throws. *)
Definition renderItem (item : option (Item Value)) (isActive : bool)
  : Outcome string :=
  match item with
  | None => Throw TypeError
  | Some (Separator separator) => Ok (chalk_cyan S_BAR ++ "   " ++ separator)
  | Some (ChoiceItem c) =>
      let line := label c in
      if truthy_disabled (disabled c) then
        let disabledLabel :=
          match disabled c with
          | Some (DisabledReason reason) => reason
          | _ => "(disabled)"
          end in
        Ok (style_disabled (line ++ " " ++ disabledLabel))
      else
        let color := if isActive then style_highlight else fun x => x in
        let cursor := if isActive then S_RADIO_ACTIVE else S_RADIO_INACTIVE in
        Ok (chalk_cyan S_BAR ++ "  " ++ color (cursor ++ " " ++ line))
  end.

(** [[prefix, message, helpTip].filter(Boolean).join(' ')], between the bar
    and status symbol and a line feed. *)
Definition title (config : SelectConfig Value) (s : Session Value) : string :=
  let message := style_message (message config) in
  let parts :=
    filter truthy_string
      ([usePrefix; message]
       ++ match helpTip config s with Some tip => [tip] | None => [] end) in
  chalk_gray S_BAR ++ newline ++ symbol (status s) ++ "  "
  ++ String.concat " " parts ++ newline.

(** [selectedChoice.name] and [selectedChoice.description]: a [Separator] has
    neither property. *)
Definition item_name (item : Item Value) : option string :=
  match item with
  | Separator _ => None
  | ChoiceItem c => name c
  end.

Definition item_description (item : Item Value) : option string :=
  match item with
  | Separator _ => None
  | ChoiceItem c => description c
  end.

(** One run of the render function on the hook state: the text it returns and
    the state it leaves ([firstRender.current] is its only write).  It throws
    what [usePagination] throws, and after that reading a property of
    [selectedChoice] throws when the active index is outside the list. *)
Definition view (config : SelectConfig Value) (s : Session Value)
  : Outcome (string * Session Value) :=
  let items := choices config in
  page <- usePagination items (active s) renderItem (pageSize_of config)
            (loop_of config) ;;
  match at_index items (active s) with
  | None => Throw TypeError
  | Some selectedChoice =>
      match status s with
      | done =>
          let answer :=
            match item_name selectedChoice with
            | Some n =>
                if truthy_string n then n
                else to_String (item_value selectedChoice)
            | None => to_String (item_value selectedChoice)
            end in
          Ok (title config s ++ chalk_gray S_BAR ++ " " ++ style_answer answer,
              render config s)
      | pending =>
          let choiceDescription :=
            match item_description selectedChoice with
            | Some d => if truthy_string d then newline ++ d else ""
            | None => ""
            end in
          Ok (title config s ++ page ++ choiceDescription ++ newline
              ++ chalk_cyan S_BAR_END ++ cursorHide ++ " ",
              render config s)
      end
  end.

(** *** More vocabulary for the properties *)

(** The guard of the Up/Down branch. *)
Definition mayMove (config : SelectConfig Value) (b : Bounds) (key : Key)
    (s : Session Value) : bool :=
  loop_of config
  || negb (active s =? match key with KeyUp => first b | _ => last b end).

(** The opposite arrow key. *)
Definition opposite (key : Key) : Key :=
  match key with
  | KeyUp => KeyDown
  | KeyDown => KeyUp
  | other => other
  end.

(** The Enter key events of an event list. *)
Definition enters (es : list Event) : nat :=
  List.length
    (filter (fun e => match e with Keypress KeyEnter _ => true | _ => false end)
       es).

(** The event is a press of the arrow key [key]. *)
Definition pressOf (key : Key) (e : Event) : Prop :=
  exists typed, e = Keypress key typed.

(** [v] is the value of a selectable choice of the list. *)
Definition selectableValue (items : list (Item Value)) (v : Value) : Prop :=
  exists i c, at_index items i = Some (ChoiceItem c) /\
              isSelectable (ChoiceItem c) = true /\ v = value c.

End View.

Arguments glyph {Value terminal} c fallback.
Arguments S_STEP_ACTIVE {Value terminal}.
Arguments S_STEP_SUBMIT {Value terminal}.
Arguments S_BAR {Value terminal}.
Arguments S_BAR_END {Value terminal}.
Arguments S_RADIO_ACTIVE {Value terminal}.
Arguments S_RADIO_INACTIVE {Value terminal}.
Arguments symbol {Value terminal} state.
Arguments renderItem {Value host terminal} item isActive.

(** ** A concrete host, for running the model *)

Module Sample.

Inductive JsValue : Type :=
| JsUndefined
| JsString (s : string).

Definition js_strict_equals (a b : JsValue) : bool :=
  match a, b with
  | JsUndefined, JsUndefined => true
  | JsString x, JsString y => String.eqb x y
  | _, _ => false
  end.

Definition js_String (a : JsValue) : string :=
  match a with
  | JsUndefined => "undefined"
  | JsString x => x
  end.

Definition lowerAscii (c : ascii) : ascii :=
  let n := nat_of_ascii c in
  if (Nat.leb 65 n && Nat.leb n 90)%bool then ascii_of_nat (n + 32) else c.

Fixpoint lower (s : string) : string :=
  match s with
  | EmptyString => EmptyString
  | String c s' => String (lowerAscii c) (lower s')
  end.

#[global] Instance host : Host JsValue := {|
  strict_equals := js_strict_equals;
  to_String := js_String;
  undefined := JsUndefined;
  toLowerCase := lower;
  style_help := fun text => text
|}.

Definition choice (n : string) : Item JsValue :=
  ChoiceItem {| value := JsString n; name := Some n;
                description := None; disabled := None |}.

Definition off (n : string) : Item JsValue :=
  ChoiceItem {| value := JsString n; name := Some n;
                description := None; disabled := Some (DisabledFlag true) |}.

Definition config (items : list (Item JsValue)) (lp : option bool)
    (dflt : option JsValue) : SelectConfig JsValue :=
  {| message := "Pick one"; choices := items; pageSize := None;
     loop := lp; default := dflt |}.

Definition abc : list (Item JsValue) := [choice "Alpha"; choice "Bravo"; choice "Charlie"].
Definition a_c : list (Item JsValue) := [choice "Alpha"; off "Bravo"; choice "Charlie"].

Definition session (st : Status) (i : Z) (l : string) : Session JsValue :=
  {| status := st; active := i; firstRender := true;
     searchTimeoutRef := None; line := l; timers := [];
     nextHandle := O; emitted := []; hints := [] |}.

End Sample.

(** ** A concrete terminal: plain glyphs, no colours, every item on a line;
    without a page to fill it renders what it reads past the list *)

Module SampleTerminal.

Fixpoint pageFrom
    (renderItem : option (Item Sample.JsValue) -> bool -> Outcome string)
    (items : list (Item Sample.JsValue)) (active i : Z)
  : Outcome (list string) :=
  match items with
  | [] => Ok []
  | item :: rest =>
      row <- renderItem (Some item) (i =? active) ;;
      rows <- pageFrom renderItem rest active (i + 1) ;;
      Ok (row :: rows)
  end.

#[global] Instance terminal : Terminal Sample.JsValue := {|
  unicode := false;
  chalk_cyan := fun text => text;
  chalk_green := fun text => text;
  chalk_gray := fun text => text;
  style_message := fun text => text;
  style_answer := fun text => text;
  style_highlight := fun text => text;
  style_disabled := fun text => "- " ++ text;
  usePrefix := "?";
  cursorHide := "";
  usePagination := fun items active renderItem pageSize _ =>
    if pageSize <=? 0 then renderItem None false
    else
      rows <- pageFrom renderItem items active 0 ;;
      Ok (String.concat (String (ascii_of_nat 10) EmptyString) rows)
|}.

End SampleTerminal.

(** ** Facts about the array primitives *)

Unset Implicit Arguments.

Section ArrayFacts.

Context {A : Type} (p : A -> bool).

Lemma findIndexFrom_firstIndex (l : list A) (i : Z) :
  findIndexFrom p l i =
  match firstIndex p l with
  | Some k => i + Z.of_nat k
  | None => -1
  end.
Proof.
  revert i; induction l as [|x l IH]; intros i; simpl; [reflexivity|].
  destruct (p x); [f_equal; lia|].
  rewrite IH. destruct (firstIndex p l); simpl; lia.
Qed.

Lemma firstIndex_Some (l : list A) (k : nat) :
  firstIndex p l = Some k ->
  (exists x, nth_error l k = Some x /\ p x = true) /\
  (forall j y, (j < k)%nat -> nth_error l j = Some y -> p y = false).
Proof.
  revert k; induction l as [|x l IH]; intros k; simpl; [discriminate|].
  destruct (p x) eqn:Hx.
  - intros [= <-]. split; [exists x; auto | intros j y Hj; lia].
  - destruct (firstIndex p l) as [k'|]; simpl; [|discriminate].
    intros [= <-]. destruct (IH k' eq_refl) as [Hat Hbefore].
    split; [exact Hat|].
    intros [|j] y Hj; simpl.
    + intros [= <-]; exact Hx.
    + apply Hbefore; lia.
Qed.

Lemma firstIndex_None (l : list A) :
  firstIndex p l = None <-> existsb p l = false.
Proof.
  induction l as [|x l IH]; simpl; [tauto|].
  destruct (p x); simpl.
  - split; discriminate.
  - destruct (firstIndex p l); simpl in *; split; intros H;
      try discriminate; try (apply IH; assumption).
    destruct IH as [_ IH]. specialize (IH H). discriminate.
Qed.

Lemma at_index_nat (l : list A) (k : nat) :
  at_index l (Z.of_nat k) = nth_error l k.
Proof.
  unfold at_index. destruct (Z.ltb_spec (Z.of_nat k) 0); [lia|].
  now rewrite Nat2Z.id.
Qed.

Lemma at_index_Some_range (l : list A) (i : Z) (x : A) :
  at_index l i = Some x -> 0 <= i < len l.
Proof.
  unfold at_index, len. destruct (Z.ltb_spec i 0); [discriminate|].
  intros Hx. assert (Hn : nth_error l (Z.to_nat i) <> None) by congruence.
  apply nth_error_Some in Hn. lia.
Qed.

Lemma at_index_in_range (l : list A) (i : Z) :
  0 <= i < len l -> exists x, at_index l i = Some x.
Proof.
  unfold at_index, len. intros Hi. destruct (Z.ltb_spec i 0); [lia|].
  destruct (nth_error l (Z.to_nat i)) as [x|] eqn:E; [eauto|].
  apply nth_error_None in E. lia.
Qed.

(** [findIndex] answers [-1] exactly when no element satisfies [p]. *)
Lemma findIndex_none (l : list A) :
  findIndex p l = -1 <-> existsb p l = false.
Proof.
  unfold findIndex. rewrite findIndexFrom_firstIndex, <- firstIndex_None.
  destruct (firstIndex p l); split; intros H; try discriminate; try reflexivity.
  lia.
Qed.

(** Otherwise it answers the least index whose element satisfies [p]. *)
Lemma findIndex_found (l : list A) :
  findIndex p l <> -1 ->
  (exists x, at_index l (findIndex p l) = Some x /\ p x = true) /\
  (forall j y, 0 <= j < findIndex p l -> at_index l j = Some y -> p y = false).
Proof.
  unfold findIndex. rewrite findIndexFrom_firstIndex.
  destruct (firstIndex p l) as [k|] eqn:E; [intros _|congruence].
  destruct (firstIndex_Some l k E) as [Hat Hbefore]. simpl.
  split.
  - now rewrite at_index_nat.
  - intros j y Hj. rewrite <- (Z2Nat.id j) by lia. rewrite at_index_nat.
    apply Hbefore. lia.
Qed.

Lemma findIndex_range (l : list A) :
  findIndex p l = -1 \/ 0 <= findIndex p l < len l.
Proof.
  destruct (Z.eq_dec (findIndex p l) (-1)) as [E|E]; [now left|right].
  destruct (findIndex_found l E) as [[x [Hx _]] _].
  exact (at_index_Some_range _ _ _ Hx).
Qed.

Lemma findIndex_le (l : list A) (j : Z) (y : A) :
  at_index l j = Some y -> p y = true -> 0 <= findIndex p l <= j.
Proof.
  intros Hj Hy.
  assert (Hne : findIndex p l <> -1).
  { rewrite findIndex_none. intros Hnone.
    rewrite <- Bool.not_true_iff_false in Hnone. apply Hnone.
    apply existsb_exists. exists y. split; [|exact Hy].
    unfold at_index in Hj. destruct (j <? 0); [discriminate|].
    eapply nth_error_In; eauto. }
  destruct (findIndex_range l) as [E|R]; [contradiction|].
  split; [lia|].
  destruct (Z_le_gt_dec (findIndex p l) j) as [L|G]; [exact L|].
  destruct (findIndex_found l Hne) as [_ Hbefore].
  pose proof (at_index_Some_range _ _ _ Hj).
  rewrite (Hbefore j y) in Hy; [discriminate|lia|exact Hj].
Qed.

Lemma existsb_at_index (l : list A) :
  existsb p l = true <-> exists i x, at_index l i = Some x /\ p x = true.
Proof.
  rewrite existsb_exists. split.
  - intros [x [Hin Hx]]. apply In_nth_error in Hin as [k Hk].
    exists (Z.of_nat k), x. now rewrite at_index_nat.
  - intros [i [x [Hi Hx]]]. exists x. split; [|exact Hx].
    unfold at_index in Hi. destruct (i <? 0); [discriminate|].
    eapply nth_error_In; eauto.
Qed.

(** Reading the reversed array. *)
Lemma at_index_rev (l : list A) (i : Z) :
  0 <= i < len l -> at_index (rev l) i = at_index l (len l - 1 - i).
Proof.
  unfold len. intros Hi.
  rewrite <- (Z2Nat.id i) at 1 by lia. rewrite at_index_nat.
  replace (Z.of_nat (List.length l) - 1 - i)
    with (Z.of_nat (List.length l - S (Z.to_nat i))) by lia.
  rewrite at_index_nat. rewrite nth_error_rev.
  destruct (Nat.ltb_spec (Z.to_nat i) (List.length l)); [reflexivity|lia].
Qed.

End ArrayFacts.

(** ** Properties of the prompt *)

Section Properties.

Variable Value : Type.
Context {host : Host Value}.

Implicit Types (items : list (Item Value)) (config : SelectConfig Value)
  (s : Session Value) (b : Bounds) (key : Key).

(** The two ways through the Up/Down branch: the guard lets the move through
    and the loop returns, or the guard holds the move back. *)
Ltac arrow_branch :=
  destruct (loop_of _ || _ || _);
  [destruct (skip _ _ _ _ _) as [?r| |]; simpl; try discriminate|].

(** The three ways through the digit branch. *)
Ltac digit_branch :=
  destruct (at_index _ _) as [?item|]; [destruct (isSelectable _)|]; simpl.

Lemma selectableAt_true items i :
  selectableAt items i = true <->
  exists item, at_index items i = Some item /\ isSelectable item = true.
Proof.
  unfold selectableAt. destruct (at_index items i) as [item|].
  - split; [eauto | intros [x [[= <-] H]]; exact H].
  - split; [discriminate | intros [x [[=] _]]].
Qed.

Lemma selectableAt_range items i :
  selectableAt items i = true -> 0 <= i < len items.
Proof.
  intros H. apply selectableAt_true in H as [item [H _]].
  exact (at_index_Some_range _ _ _ H).
Qed.

Lemma hasSelectable_rev items :
  hasSelectable (rev items) = hasSelectable items.
Proof.
  unfold hasSelectable. apply Bool.eq_true_iff_eq.
  rewrite !existsb_exists. split; intros [x [Hin Hx]]; exists x; split; auto.
  - now apply in_rev.
  - now apply in_rev in Hin.
Qed.

Lemma len_rev items : len (rev items) = len items.
Proof. unfold len. now rewrite length_rev. Qed.

(** What [bounds] returns when some item is selectable: the least and the
    greatest selectable index. *)
Lemma bounds_found items :
  hasSelectable items = true ->
  exists b, bounds items = Ok b /\
    selectableAt items (first b) = true /\
    selectableAt items (last b) = true /\
    (forall i, selectableAt items i = true -> first b <= i <= last b).
Proof.
  intros Hsel. unfold bounds.
  assert (Hf : findIndex isSelectable items <> -1).
  { rewrite findIndex_none. unfold hasSelectable in Hsel. congruence. }
  assert (Hl : findIndex isSelectable (rev items) <> -1).
  { rewrite findIndex_none. fold (hasSelectable (rev items)).
    rewrite hasSelectable_rev. congruence. }
  destruct (findIndex_range isSelectable items) as [E|Rf]; [contradiction|].
  destruct (findIndex_range isSelectable (rev items)) as [E|Rl]; [contradiction|].
  rewrite len_rev in Rl.
  destruct (Z.ltb_spec (findIndex isSelectable items) 0) as [?|_]; [lia|].
  eexists; split; [reflexivity|]. simpl.
  destruct (findIndex_found _ _ Hf) as [[x [Hx Hpx]] _].
  destruct (findIndex_found _ _ Hl) as [[y [Hy Hpy]] Hbefore].
  rewrite at_index_rev in Hy by lia.
  repeat split.
  - apply selectableAt_true; eauto.
  - apply selectableAt_true; eauto.
  - apply selectableAt_true in H as [z [Hz Hpz]].
    apply (findIndex_le isSelectable items i z Hz Hpz).
  - apply selectableAt_true in H as [z [Hz Hpz]].
    pose proof (at_index_Some_range _ _ _ Hz) as Hi.
    assert (Hr : at_index (rev items) (len items - 1 - i) = Some z).
    { rewrite at_index_rev by lia.
      now replace (len items - 1 - (len items - 1 - i)) with i by lia. }
    pose proof (findIndex_le isSelectable (rev items) _ _ Hr Hpz). lia.
Qed.

Lemma bounds_none items :
  hasSelectable items = false ->
  bounds items = Throw (ValidationError no_selectable_message).
Proof.
  intros Hsel. unfold bounds.
  apply (findIndex_none isSelectable) in Hsel. now rewrite Hsel.
Qed.

Lemma bounds_Ok_hasSelectable items b :
  bounds items = Ok b -> hasSelectable items = true.
Proof.
  destruct (hasSelectable items) eqn:E; [reflexivity|].
  rewrite (bounds_none _ E). discriminate.
Qed.

(** C1. When the choice list has a selectable item, [bounds] succeeds (and so
    does construction, with these bounds), [first <= last] and both indices
    hold selectable items; when it has none (the empty list, or only disabled
    choices and separators), [bounds] and with it construction throw the
    [ValidationError], the only error of construction. *)
Theorem bounds_selectable_or_error config :
  (hasSelectable (choices config) = true ->
   exists b s,
     bounds (choices config) = Ok b /\ construct config = Ok (b, s) /\
     first b <= last b /\
     selectableAt (choices config) (first b) = true /\
     selectableAt (choices config) (last b) = true) /\
  (hasSelectable (choices config) = false ->
   bounds (choices config) = Throw (ValidationError no_selectable_message) /\
   construct config = Throw (ValidationError no_selectable_message)).
Proof.
  split; intros Hsel.
  - destruct (bounds_found _ Hsel) as [b [Hb [Hfirst [Hlast Hext]]]].
    unfold construct. rewrite Hb. simpl.
    eexists; eexists; repeat split; eauto.
    destruct (Hext _ Hfirst); lia.
  - unfold construct. rewrite (bounds_none _ Hsel). auto.
Qed.

(** *** The skip loop *)

Lemma advance_mod items offset next :
  offset = 1 \/ offset = -1 -> 0 <= next < len items ->
  advance items offset next = (next + offset) mod len items.
Proof.
  intros Hoff Hnext. unfold advance.
  rewrite Z.rem_mod_nonneg by lia.
  replace (next + offset + len items) with (next + offset + 1 * len items) by lia.
  apply Z_mod_plus_full.
Qed.

Lemma reached_range items offset start k :
  0 <= start < len items -> 0 <= reached items offset start k < len items.
Proof. intros H. unfold reached. apply Z.mod_pos_bound. lia. Qed.

Lemma reached_shift items offset start k :
  0 <= start < len items ->
  reached items offset ((start + offset) mod len items) k
  = reached items offset start (S k).
Proof.
  intros H. unfold reached.
  rewrite Z.add_mod_idemp_l by lia. f_equal. lia.
Qed.

(** The loop stops at the first turn that reaches a selectable item. *)
Lemma skip_first_selectable items offset :
  offset = 1 \/ offset = -1 ->
  forall fuel start ran k,
    0 <= start < len items ->
    (1 <= k <= fuel)%nat ->
    selectableAt items (reached items offset start k) = true ->
    (forall j, (1 <= j < k)%nat ->
               selectableAt items (reached items offset start j) = false) ->
    skip fuel items offset start ran
    = Ok (reached items offset start k, (ran + k)%nat).
Proof.
  intros Hoff. induction fuel as [|fuel IH]; intros start ran k Hstart Hk Hsel Hmin.
  - lia.
  - simpl. rewrite (advance_mod items offset start Hoff Hstart).
    assert (Hone : (start + offset) mod len items = reached items offset start 1).
    { unfold reached. f_equal. lia. }
    assert (Hr : 0 <= (start + offset) mod len items < len items)
      by (apply Z.mod_pos_bound; lia).
    destruct (at_index_in_range _ _ Hr) as [item Hitem]. rewrite Hitem.
    destruct (isSelectable item) eqn:Hit.
    + destruct (Nat.eq_dec k 1) as [->|Hne].
      * rewrite Hone. do 2 f_equal. lia.
      * assert (Hfalse : selectableAt items (reached items offset start 1) = false)
          by (apply Hmin; lia).
        rewrite <- Hone in Hfalse. unfold selectableAt in Hfalse.
        rewrite Hitem in Hfalse. congruence.
    + destruct k as [|[|k]]; [lia| |].
      * rewrite <- Hone in Hsel. unfold selectableAt in Hsel.
        rewrite Hitem in Hsel. congruence.
      * rewrite (IH _ (S ran) (S k) Hr).
        -- rewrite reached_shift by assumption. do 2 f_equal. lia.
        -- lia.
        -- now rewrite reached_shift.
        -- intros j Hj. rewrite reached_shift by assumption. apply Hmin. lia.
Qed.

Lemma least_true (f : nat -> bool) :
  forall k, f k = true ->
  exists k', (k' <= k)%nat /\ f k' = true /\
             forall j, (j < k')%nat -> f j = false.
Proof.
  intros k. revert f. induction k as [|k IH]; intros f Hk.
  - exists O. repeat split; auto. intros j Hj; lia.
  - destruct (f O) eqn:H0.
    + exists O. repeat split; auto; [lia | intros j Hj; lia].
    + destruct (IH (fun j => f (S j)) Hk) as [k' [Hle [Hk' Hmin]]].
      exists (S k'). repeat split; [lia | exact Hk' |].
      intros [|j] Hj; [exact H0 | apply Hmin; lia].
Qed.

(** Some turn within the first [length items] reaches a selectable item. *)
Lemma reached_some_selectable items offset start :
  hasSelectable items = true ->
  offset = 1 \/ offset = -1 ->
  0 <= start < len items ->
  exists k, (1 <= k <= List.length items)%nat /\
            selectableAt items (reached items offset start k) = true.
Proof.
  intros Hsel Hoff Hstart.
  apply (existsb_at_index isSelectable) in Hsel as [t [item [Ht Hitem]]].
  pose proof (at_index_Some_range _ _ _ Ht) as Htr.
  set (n := len items) in *.
  set (d := ((t - start) * offset) mod n).
  assert (Hd : 0 <= d < n) by (apply Z.mod_pos_bound; lia).
  assert (Hreach : (start + d * offset) mod n = t).
  { unfold d. rewrite <- Z.add_mod_idemp_r by lia.
    rewrite Z.mul_mod_idemp_l by lia.
    rewrite Z.add_mod_idemp_r by lia.
    replace (start + (t - start) * offset * offset) with t
      by (destruct Hoff; subst offset; lia).
    apply Z.mod_small. lia. }
  assert (Hat : selectableAt items t = true)
    by (apply selectableAt_true; eauto).
  destruct (Z.eq_dec d 0) as [E|E].
  - exists (List.length items). split; [unfold n, len in *; lia|].
    unfold reached. fold n.
    rewrite E in Hreach. rewrite Z.mul_0_l, Z.add_0_r in Hreach.
    replace (Z.of_nat (List.length items)) with n by reflexivity.
    replace (start + n * offset) with (start + offset * n) by lia.
    rewrite Z_mod_plus_full. now rewrite Hreach.
  - exists (Z.to_nat d). split; [unfold n, len in *; lia|].
    unfold reached. fold n. rewrite Z2Nat.id by lia. now rewrite Hreach.
Qed.

(** The loop returns at the first selectable index in its direction. *)
Lemma skip_from_active fuel items offset start :
  hasSelectable items = true ->
  offset = 1 \/ offset = -1 ->
  0 <= start < len items ->
  (List.length items <= fuel)%nat ->
  exists k,
    (1 <= k <= List.length items)%nat /\
    skip fuel items offset start 0 = Ok (reached items offset start k, k) /\
    selectableAt items (reached items offset start k) = true /\
    (forall j, (1 <= j < k)%nat ->
               selectableAt items (reached items offset start j) = false).
Proof.
  intros Hsel Hoff Hstart Hfuel.
  destruct (reached_some_selectable items offset start Hsel Hoff Hstart)
    as [k [Hk Hat]].
  destruct (least_true
              (fun j => selectableAt items (reached items offset start (S j)))
              (k - 1)) as [k' [Hle [Hk' Hmin]]].
  { now replace (S (k - 1)) with k by lia. }
  exists (S k'). split; [lia|].
  assert (Hbefore : forall j, (1 <= j < S k')%nat ->
            selectableAt items (reached items offset start j) = false).
  { intros [|j] Hj; [lia|]. apply Hmin. lia. }
  split; [|split; assumption].
  apply (skip_first_selectable items offset Hoff fuel start O (S k') Hstart);
    [lia | exact Hk' | exact Hbefore].
Qed.

(** C10. With a selectable item in the list, from every index of the list and
    in either direction the skip loop returns, at a selectable index, after
    having run its body at least once and at most [length items] times; any
    fuel of at least [length items] gives that result. *)
Theorem skip_terminates items offset start :
  hasSelectable items = true ->
  offset = 1 \/ offset = -1 ->
  0 <= start < len items ->
  exists next ran,
    (1 <= ran <= List.length items)%nat /\
    selectableAt items next = true /\
    forall fuel, (List.length items <= fuel)%nat ->
                 skip fuel items offset start 0 = Ok (next, ran).
Proof.
  intros Hsel Hoff Hstart.
  destruct (skip_from_active (List.length items) items offset start
              Hsel Hoff Hstart (Nat.le_refl _)) as [k [Hk [_ [Hat Hmin]]]].
  exists (reached items offset start k), k.
  split; [exact Hk|]. split; [exact Hat|].
  intros fuel Hfuel.
  apply (skip_first_selectable items offset Hoff fuel start O k Hstart);
    [lia | exact Hat | exact Hmin].
Qed.

(** *** Up and Down *)

Lemma active_clearTimeout h s : active (clearTimeout h s) = active s.
Proof. destruct h; reflexivity. Qed.

Lemma status_clearTimeout h s : status (clearTimeout h s) = status s.
Proof. destruct h; reflexivity. Qed.

Lemma line_clearTimeout h s : line (clearTimeout h s) = line s.
Proof. destruct h; reflexivity. Qed.

Lemma emitted_clearTimeout h s : emitted (clearTimeout h s) = emitted s.
Proof. destruct h; reflexivity. Qed.

(** C3. An Up or Down key, in a pending prompt as in any other: when [loop]
    is on, or the active index is not the bound on that side ([first] for Up, [last] for
    Down), the active index moves to the nearest selectable index in that
    direction, counted cyclically modulo the length of the list and passing
    over what is not selectable; when [loop] is off and the active index is
    that bound, it stays. *)
Theorem up_down_moves fuel config b key s :
  bounds (choices config) = Ok b ->
  (List.length (choices config) <= fuel)%nat ->
  0 <= active s < len (choices config) ->
  key = KeyUp \/ key = KeyDown ->
  exists s',
    keypress fuel config b key s = Ok s' /\
    (loop_of config = true \/
     active s <> match key with KeyUp => first b | _ => last b end ->
     exists k,
       (1 <= k <= List.length (choices config))%nat /\
       active s' = reached (choices config) (direction key) (active s) k /\
       selectableAt (choices config) (active s') = true /\
       forall j, (1 <= j < k)%nat ->
         selectableAt (choices config)
           (reached (choices config) (direction key) (active s) j) = false) /\
    (loop_of config = false /\
     active s = match key with KeyUp => first b | _ => last b end ->
     active s' = active s).
Proof.
  intros Hb Hfuel Hact Hkey.
  pose proof (bounds_Ok_hasSelectable _ _ Hb) as Hsel.
  assert (Hoff : direction key = 1 \/ direction key = -1)
    by (destruct Hkey; subst key; simpl; auto).
  destruct (skip_from_active fuel (choices config) (direction key) (active s)
              Hsel Hoff Hact Hfuel) as [k [Hk [Hskip [Hat Hmin]]]].
  set (guard := loop_of config
                || ((match key with KeyUp => true | _ => false end)
                    && negb (active s =? first b))
                || (negb (match key with KeyUp => true | _ => false end)
                    && negb (active s =? last b))).
  assert (Hkp : keypress fuel config b key s
                = if guard
                  then Ok (setActive (reached (choices config) (direction key)
                                        (active s) k)
                             (clearLine (clearTimeout (searchTimeoutRef s) s)))
                  else Ok (clearLine (clearTimeout (searchTimeoutRef s) s))).
  { unfold guard. destruct Hkey; subst key; unfold keypress; simpl;
      rewrite !active_clearTimeout; simpl in Hskip;
      rewrite Hskip; reflexivity. }
  rewrite Hkp. destruct guard eqn:Hg; eexists; (split; [reflexivity|]); split.
  - intros _. exists k. simpl. auto.
  - intros [Hloop Hbound]. exfalso. unfold guard in Hg. rewrite Hloop in Hg.
    destruct Hkey; subst key; simpl in Hg, Hbound;
      rewrite Hbound, Z.eqb_refl in Hg; discriminate.
  - intros Hmove. exfalso. unfold guard in Hg.
    destruct Hmove as [Hloop|Hne]; [rewrite Hloop in Hg; discriminate|].
    apply Z.eqb_neq in Hne.
    destruct Hkey; subst key; simpl in Hg, Hne; rewrite Hne in Hg;
      destruct (loop_of config); discriminate.
  - intros _. simpl. apply active_clearTimeout.
Qed.

(** *** The active index stays on a selectable item *)

Lemma searchMatches_selectable term (item : Item Value) :
  searchMatches term item = true -> isSelectable item = true.
Proof.
  destruct item as [sep|c]; simpl; [discriminate|].
  destruct (truthy_disabled (disabled c)); simpl; [discriminate|reflexivity].
Qed.

Lemma findIndex_selectableAt (p : Item Value -> bool) items :
  (forall item, p item = true -> isSelectable item = true) ->
  findIndex p items <> -1 ->
  selectableAt items (findIndex p items) = true.
Proof.
  intros Hp Hne. destruct (findIndex_found p items Hne) as [[x [Hx Hpx]] _].
  apply selectableAt_true. eauto.
Qed.

Lemma construct_selectable config :
  hasSelectable (choices config) = true ->
  exists b s0,
    construct config = Ok (b, s0) /\
    bounds (choices config) = Ok b /\
    selectableAt (choices config) (active s0) = true.
Proof.
  intros Hsel. destruct (bounds_found _ Hsel) as [b [Hb [Hfirst _]]].
  unfold construct. rewrite Hb. simpl.
  eexists; eexists; split; [reflexivity|]. split; [reflexivity|]. simpl.
  destruct (Z.eqb_spec (defaultItemIndex config) (-1)) as [E|E]; [exact Hfirst|].
  unfold defaultItemIndex in *. destruct (default config) as [d|]; [|congruence].
  apply findIndex_selectableAt; [|exact E].
  intros [sep|c]; [discriminate|]. intros H.
  apply andb_prop in H. tauto.
Qed.

Lemma keypress_selectable fuel config b key s :
  hasSelectable (choices config) = true ->
  (List.length (choices config) <= fuel)%nat ->
  selectableAt (choices config) (active s) = true ->
  exists s',
    keypress fuel config b key s = Ok s' /\
    selectableAt (choices config) (active s') = true.
Proof.
  intros Hsel Hfuel Hinv.
  pose proof (selectableAt_range _ _ Hinv) as Hact.
  destruct key as [| | |n| |]; unfold keypress.
  - (* Enter *)
    rewrite active_clearTimeout.
    apply selectableAt_true in Hinv as Hitem. destruct Hitem as [item [Hitem _]].
    rewrite Hitem. eexists; split; [reflexivity|]. simpl.
    now rewrite active_clearTimeout.
  - (* Up *)
    destruct (skip_from_active fuel (choices config) (-1) (active s)
                Hsel (or_intror eq_refl) Hact Hfuel) as [k [_ [Hskip [Hat _]]]].
    simpl. rewrite !active_clearTimeout, Hskip. simpl.
    destruct (loop_of config || negb (active s =? first b) || false);
      eexists; (split; [reflexivity|]); simpl;
      [exact Hat | now rewrite active_clearTimeout].
  - (* Down *)
    destruct (skip_from_active fuel (choices config) 1 (active s)
                Hsel (or_introl eq_refl) Hact Hfuel) as [k [_ [Hskip [Hat _]]]].
    simpl. rewrite !active_clearTimeout, Hskip. simpl.
    destruct (loop_of config || false || negb (active s =? last b));
      eexists; (split; [reflexivity|]); simpl;
      [exact Hat | now rewrite active_clearTimeout].
  - (* digit *)
    destruct (at_index (choices config) (n - 1)) as [item|] eqn:Hitem;
      [destruct (isSelectable item) eqn:Hit|];
      eexists; (split; [reflexivity|]); simpl;
      try (now rewrite active_clearTimeout).
    unfold selectableAt. now rewrite Hitem.
  - (* backspace *)
    eexists; split; [reflexivity|]. simpl. now rewrite active_clearTimeout.
  - (* search *)
    eexists; split; [reflexivity|]. simpl.
    rewrite line_clearTimeout.
    set (m := findIndex (searchMatches (toLowerCase (line s))) (choices config)).
    destruct (Z.geb_spec m 0) as [Hm|Hm]; simpl.
    + apply findIndex_selectableAt; [apply searchMatches_selectable|].
      fold m. lia.
    + now rewrite active_clearTimeout.
Qed.

Lemma step_selectable fuel config b e s :
  hasSelectable (choices config) = true ->
  (List.length (choices config) <= fuel)%nat ->
  selectableAt (choices config) (active s) = true ->
  exists s',
    step fuel config b e s = Ok s' /\
    selectableAt (choices config) (active s') = true.
Proof.
  intros Hsel Hfuel Hinv. destruct e as [key typed|h|]; simpl.
  - now apply keypress_selectable.
  - eexists; split; [reflexivity|]. unfold fire.
    now destruct (find _ (timers s)).
  - eexists; split; [reflexivity|]. exact Hinv.
Qed.

Lemma run_selectable fuel config b es :
  hasSelectable (choices config) = true ->
  (List.length (choices config) <= fuel)%nat ->
  forall s,
    selectableAt (choices config) (active s) = true ->
    exists s',
      run fuel config b es s = Ok s' /\
      selectableAt (choices config) (active s') = true.
Proof.
  intros Hsel Hfuel. induction es as [|e es IH]; intros s Hinv; simpl.
  - eauto.
  - destruct (step_selectable fuel config b e s Hsel Hfuel Hinv) as [s1 [H1 Hinv1]].
    rewrite H1. simpl. now apply IH.
Qed.

(** C2. With a selectable item in the list, construction succeeds with the
    active index on a selectable choice, and every key event (Enter, Up,
    Down, a digit, backspace, a search key) handled from a session whose
    active index is on a selectable choice returns a session whose active
    index is on a selectable choice; so it is after any sequence of events. *)
Theorem active_always_selectable fuel config :
  hasSelectable (choices config) = true ->
  (List.length (choices config) <= fuel)%nat ->
  exists b s0,
    construct config = Ok (b, s0) /\
    selectableAt (choices config) (active s0) = true /\
    (forall key s,
        selectableAt (choices config) (active s) = true ->
        exists s',
          keypress fuel config b key s = Ok s' /\
          selectableAt (choices config) (active s') = true) /\
    (forall es,
        exists s,
          run fuel config b es s0 = Ok s /\
          selectableAt (choices config) (active s) = true).
Proof.
  intros Hsel Hfuel.
  destruct (construct_selectable config Hsel) as [b [s0 [Hc [_ Hinv]]]].
  exists b, s0. repeat split; auto.
  - intros key s Hs. now apply keypress_selectable.
  - intros es. now apply run_selectable.
Qed.

(** *** Digit keys *)

(** C6. A digit key [d] targets index [d - 1]: when that is an index of the
    list and the item there is selectable the active index becomes [d - 1];
    when it is out of range, or the item there is a separator or a disabled
    choice, the active index is unchanged; the handler returns in all cases. *)
Theorem digit_jump fuel config b d s :
  exists s',
    keypress fuel config b (KeyNumber d) s = Ok s' /\
    (0 <= d - 1 < len (choices config) ->
     selectableAt (choices config) (d - 1) = true ->
     active s' = d - 1) /\
    (d - 1 < 0 \/ len (choices config) <= d - 1 -> active s' = active s) /\
    (forall item, at_index (choices config) (d - 1) = Some item ->
                  isSelectable item = false -> active s' = active s).
Proof.
  unfold keypress, selectableAt.
  destruct (at_index (choices config) (d - 1)) as [item|] eqn:Hitem.
  - pose proof (at_index_Some_range _ _ _ Hitem) as Hr.
    destruct (isSelectable item) eqn:Hit; eexists; (split; [reflexivity|]);
      simpl; rewrite ?active_clearTimeout; repeat split;
      try reflexivity; try discriminate; try lia.
    intros x [= <-]. congruence.
  - eexists; split; [reflexivity|]. simpl. rewrite active_clearTimeout.
    repeat split; try reflexivity; try discriminate.
Qed.

(** *** Search keys *)

Lemma searchMatches_spec term (item : Item Value) :
  searchMatches term item = true <->
  exists c, item = ChoiceItem c /\ isSelectable item = true /\
            String.prefix term (toLowerCase (label c)) = true.
Proof.
  destruct item as [sep|c]; simpl.
  - split; [discriminate | intros [c [[=] _]]].
  - destruct (truthy_disabled (disabled c)); simpl; split.
    + discriminate.
    + intros [c' [_ [[=] _]]].
    + intros H. exists c. auto.
    + intros [c' [[= <-] [_ H]]]. exact H.
Qed.

Lemma labelMatchAt_iff items term i :
  labelMatchAt items term i <->
  exists item, at_index items i = Some item /\
               searchMatches (toLowerCase term) item = true.
Proof.
  unfold labelMatchAt. split.
  - intros [c [Hat [Hsel Hpre]]]. exists (ChoiceItem c). split; [exact Hat|].
    apply searchMatches_spec. exists c. auto.
  - intros [item [Hat Hm]]. apply searchMatches_spec in Hm as [c [-> [Hsel Hpre]]].
    exists c. auto.
Qed.

(** What the search branch's [findIndex] returns. *)
Lemma search_findIndex items term :
  let m := findIndex (searchMatches (toLowerCase term)) items in
  ((exists i, labelMatchAt items term i) ->
   labelMatchAt items term m /\
   forall j, 0 <= j < m -> ~ labelMatchAt items term j) /\
  ((forall i, ~ labelMatchAt items term i) -> m = -1).
Proof.
  intros m. split.
  - intros [i Hi]. apply labelMatchAt_iff in Hi as [item [Hat Hm]].
    destruct (findIndex_le _ items i item Hat Hm) as [Hlo _].
    assert (Hne : m <> -1) by (unfold m; lia).
    destruct (findIndex_found _ items Hne) as [[x [Hx Hpx]] Hbefore].
    split.
    + apply labelMatchAt_iff. eauto.
    + intros j Hj Hmatch. apply labelMatchAt_iff in Hmatch as [y [Hy Hpy]].
      rewrite (Hbefore j y Hj Hy) in Hpy. discriminate.
  - intros Hnone. destruct (Z.eq_dec m (-1)) as [E|E]; [exact E|].
    destruct (findIndex_found _ items E) as [[x [Hx Hpx]] _].
    exfalso. apply (Hnone m). apply labelMatchAt_iff. eauto.
Qed.

(** C5. A search key: the buffer and the labels are compared in lower case;
    when some selectable choice has a label (its name, else its stringified
    value) starting with the buffer, the active index becomes the least index
    of such a choice, otherwise it is unchanged; the index chosen depends on
    the list and the lowered buffer only, not on the session it is pressed in
    (its active index in particular). *)
Theorem search_first_match fuel config b s :
  exists s',
    keypress fuel config b KeyOther s = Ok s' /\
    ((exists i, labelMatchAt (choices config) (line s) i) ->
     labelMatchAt (choices config) (line s) (active s') /\
     forall j, 0 <= j < active s' ->
               ~ labelMatchAt (choices config) (line s) j) /\
    ((forall i, ~ labelMatchAt (choices config) (line s) i) ->
     active s' = active s) /\
    (forall s2,
        toLowerCase (line s2) = toLowerCase (line s) ->
        (exists i, labelMatchAt (choices config) (line s) i) ->
        exists s2',
          keypress fuel config b KeyOther s2 = Ok s2' /\
          active s2' = active s').
Proof.
  unfold keypress. rewrite line_clearTimeout.
  destruct (search_findIndex (choices config) (line s)) as [Hsome Hnone].
  set (m := findIndex (searchMatches (toLowerCase (line s))) (choices config))
    in *.
  eexists; split; [reflexivity|]. simpl. repeat split.
  - destruct (Hsome H) as [Hm _].
    destruct Hm as [c [Hat _]]. pose proof (at_index_Some_range _ _ _ Hat).
    destruct (Z.geb_spec m 0); [|lia]. simpl. now apply Hsome.
  - destruct (Hsome H) as [[c [Hat _]] Hmin].
    pose proof (at_index_Some_range _ _ _ Hat).
    destruct (Z.geb_spec m 0); [|lia]. simpl. exact Hmin.
  - intros Hno. rewrite (Hnone Hno). simpl. apply active_clearTimeout.
  - intros s2 Hline Hex. eexists; split; [reflexivity|]. simpl.
    rewrite line_clearTimeout, Hline. fold m.
    destruct (Hsome Hex) as [[c [Hat _]] _].
    pose proof (at_index_Some_range _ _ _ Hat).
    destruct (Z.geb_spec m 0); [|lia]. reflexivity.
Qed.

(** *** The initial active index *)

(** C7. When the config has a [default] and it is strictly equal to the value
    of some selectable choice, the initial active index is the index of such
    a choice (the least one); when the config has no [default], or it equals
    the value of no selectable choice, the initial active index is
    [first] of the bounds. *)
Theorem initial_active config :
  hasSelectable (choices config) = true ->
  exists b s0,
    construct config = Ok (b, s0) /\
    bounds (choices config) = Ok b /\
    (forall d,
        default config = Some d ->
        (exists i, valueMatchAt (choices config) d i) ->
        valueMatchAt (choices config) d (active s0) /\
        forall j, 0 <= j < active s0 -> ~ valueMatchAt (choices config) d j) /\
    (default config = None \/
     (exists d, default config = Some d /\
                forall i, ~ valueMatchAt (choices config) d i) ->
     active s0 = first b).
Proof.
  intros Hsel. destruct (bounds_found _ Hsel) as [b [Hb _]].
  unfold construct. rewrite Hb. simpl.
  eexists; eexists; split; [reflexivity|]. split; [reflexivity|]. simpl.
  unfold defaultItemIndex.
  destruct (default config) as [d0|]; [|split].
  - set (p := fun item : Item Value =>
                match item with
                | Separator _ => false
                | ChoiceItem c => isSelectable item && strict_equals (value c) d0
                end).
    assert (Hp : forall i,
               valueMatchAt (choices config) d0 i <->
               exists item, at_index (choices config) i = Some item /\
                            p item = true).
    { intros i. unfold valueMatchAt. split.
      - intros [c [Hat [Hs He]]]. exists (ChoiceItem c). split; [exact Hat|].
        unfold p. now rewrite Hs, He.
      - intros [[sep|c] [Hat Hpi]]; [discriminate|].
        unfold p in Hpi. apply andb_prop in Hpi as [Hs He]. eauto. }
    split.
    + intros d [= <-] [i Hi]. apply Hp in Hi as [item [Hat Hpi]].
      destruct (findIndex_le p _ i item Hat Hpi) as [Hlo _].
      destruct (Z.eqb_spec (findIndex p (choices config)) (-1)) as [E|E]; [lia|].
      destruct (findIndex_found p _ E) as [[x [Hx Hpx]] Hbefore].
      split; [apply Hp; eauto|].
      intros j Hj Hmatch. apply Hp in Hmatch as [y [Hy Hpy]].
      rewrite (Hbefore j y Hj Hy) in Hpy. discriminate.
    + intros [[=]|[d [[= <-] Hno]]].
      destruct (Z.eqb_spec (findIndex p (choices config)) (-1)) as [E|E];
        [reflexivity|].
      destruct (findIndex_found p _ E) as [[x [Hx Hpx]] _].
      exfalso. apply (Hno (findIndex p (choices config))). apply Hp. eauto.
  - intros d [=].
  - intros _. reflexivity.
Qed.

(** *** What a key event leaves untouched, and what it does to the timers *)

Lemma keypress_frame fuel config b key s s' :
  keypress fuel config b key s = Ok s' ->
  firstRender s' = firstRender s /\
  hints s' = hints s /\
  timers s' =
    match key with
    | KeyOther =>
        (timers (clearTimeout (searchTimeoutRef s) s)
         ++ [{| handle := nextHandle s; delay := 700;
                callback := fun _ => "" |}])%list
    | _ => timers (clearTimeout (searchTimeoutRef s) s)
    end /\
  searchTimeoutRef s' =
    match key with
    | KeyOther => Some (nextHandle s)
    | _ => searchTimeoutRef s
    end /\
  nextHandle s' =
    match key with
    | KeyOther => S (nextHandle s)
    | _ => nextHandle s
    end.
Proof.
  assert (Hframe : forall h,
             firstRender (clearTimeout h s) = firstRender s /\
             hints (clearTimeout h s) = hints s /\
             searchTimeoutRef (clearTimeout h s) = searchTimeoutRef s /\
             nextHandle (clearTimeout h s) = nextHandle s)
    by (intros [h|]; simpl; auto).
  destruct (Hframe (searchTimeoutRef s)) as [Hfr [Hh [Href Hn]]].
  unfold keypress. destruct key as [| | |n| |].
  - destruct (at_index _ _); [|discriminate]. intros [= <-]. simpl. auto.
  - simpl. arrow_branch; intros [= <-]; simpl; auto.
  - simpl. arrow_branch; intros [= <-]; simpl; auto.
  - digit_branch; intros [= <-]; simpl; auto.
  - intros [= <-]. simpl. auto.
  - intros [= <-].
    destruct (findIndex _ _ >=? 0); simpl; rewrite ?Hn; auto.
Qed.

Lemma clearTimeout_owned s :
  timersOwned s -> timers (clearTimeout (searchTimeoutRef s) s) = [].
Proof.
  intros [Hnil | [t [Ht [Href _]]]].
  - destruct (searchTimeoutRef s); simpl; rewrite Hnil; reflexivity.
  - rewrite Href. simpl. rewrite Ht. simpl. now rewrite Nat.eqb_refl.
Qed.

Lemma keypress_owned fuel config b key s s' :
  timersOwned s -> keypress fuel config b key s = Ok s' -> timersOwned s'.
Proof.
  intros Hown Hk.
  destruct (keypress_frame _ _ _ _ _ _ Hk) as [_ [_ [Ht [Href Hn]]]].
  rewrite (clearTimeout_owned _ Hown) in Ht.
  destruct key; try (left; exact Ht).
  right. eexists. split; [exact Ht|]. simpl. rewrite Href, Hn.
  repeat split. lia.
Qed.

Lemma fire_owned h s : timersOwned s -> timersOwned (fire h s).
Proof.
  intros [Hnil | [t [Ht Hrest]]]; unfold fire.
  - rewrite Hnil. simpl. now left.
  - rewrite Ht. simpl. destruct (Nat.eqb (handle t) h) eqn:E.
    + left. reflexivity.
    + right. exists t. split; [exact Ht | exact Hrest].
Qed.

Lemma step_owned fuel config b e s s' :
  timersOwned s -> step fuel config b e s = Ok s' -> timersOwned s'.
Proof.
  intros Hown. destruct e as [key typed|h|]; simpl.
  - apply keypress_owned. exact Hown.
  - intros [= <-]. now apply fire_owned.
  - intros [= <-]. exact Hown.
Qed.

Lemma run_owned fuel config b es :
  forall s s', timersOwned s -> run fuel config b es s = Ok s' -> timersOwned s'.
Proof.
  induction es as [|e es IH]; intros s s' Hown; simpl.
  - intros [= <-]. exact Hown.
  - destruct (step fuel config b e s) as [s1| |] eqn:E; simpl; try discriminate.
    apply IH. eapply step_owned; eauto.
Qed.

Lemma construct_owned config b s0 :
  construct config = Ok (b, s0) -> timersOwned s0 /\ firstRender s0 = true /\
                                   hints s0 = [].
Proof.
  unfold construct. destruct (bounds (choices config)); simpl; try discriminate.
  intros [= <- <-]. simpl. split; [now left | auto].
Qed.

(** C8. In every session reached from construction: at most one timer is
    pending, it has the delay of 700 ms and its firing does nothing but clear
    the readline's line (and leave no timer pending); a key event leaves none
    of the timers that were pending, a search key then leaving exactly one
    new search timer and every other key none. *)
Theorem one_search_timer fuel config b s0 es s :
  construct config = Ok (b, s0) ->
  run fuel config b es s0 = Ok s ->
  (List.length (timers s) <= 1)%nat /\
  (forall t, In t (timers s) ->
             delay t = 700 /\
             fire (handle t) s = clearTimeout (Some (handle t)) (clearLine s) /\
             timers (fire (handle t) s) = []) /\
  (forall key typed s',
      step fuel config b (Keypress key typed) s = Ok s' ->
      (forall t, In t (timers s) -> ~ In t (timers s')) /\
      match key with
      | KeyOther =>
          exists t, timers s' = [t] /\ delay t = 700 /\
                    (forall l, callback t l = "") /\
                    searchTimeoutRef s' = Some (handle t)
      | _ => timers s' = []
      end).
Proof.
  intros Hc Hrun.
  assert (Hown : timersOwned s).
  { eapply run_owned; [|exact Hrun]. apply (construct_owned _ _ _ Hc). }
  split; [|split].
  - destruct Hown as [-> | [t [-> _]]]; simpl; lia.
  - intros t Hin. destruct Hown as [Hnil | [t0 [Ht [_ [_ [Hd Hcb]]]]]].
    + rewrite Hnil in Hin. contradiction.
    + rewrite Ht in Hin. destruct Hin as [<-|[]].
      split; [exact Hd|]. unfold fire. rewrite Ht. simpl.
      rewrite Nat.eqb_refl. simpl. rewrite Ht, Hcb. simpl.
      rewrite Nat.eqb_refl. simpl. auto.
  - intros key typed s' Hstep. simpl in Hstep.
    assert (Hown' : timersOwned (setLine (line s ++ typed) s)) by exact Hown.
    destruct (keypress_frame _ _ _ _ _ _ Hstep) as [_ [_ [Ht [Href _]]]].
    rewrite (clearTimeout_owned _ Hown') in Ht. simpl in Ht, Href.
    split.
    + intros t Hin Hin'.
      destruct Hown as [Hnil | [t0 [Ht0 [_ [Hlt _]]]]];
        [rewrite Hnil in Hin; contradiction|].
      rewrite Ht0 in Hin. destruct Hin as [<-|[]].
      destruct key; rewrite Ht in Hin'; simpl in Hin'; try contradiction.
      destruct Hin' as [E|[]]. rewrite <- E in Hlt. simpl in Hlt. lia.
    + destruct key; try exact Ht.
      eexists. split; [exact Ht|]. simpl. auto.
Qed.

(** *** The help hint *)

Lemma helpTip_first config s :
  firstRender s = true -> helpTip config s = firstHint config.
Proof. intros H. unfold helpTip, firstHint. now rewrite H. Qed.

Lemma helpTip_spent config s : hintSpent config s -> helpTip config s = None.
Proof.
  unfold hintSpent, helpTip, firstHint. intros [-> | H]; [reflexivity|].
  destruct (len (choices config) <=? pageSize_of config); [discriminate|].
  now rewrite andb_false_r.
Qed.

Lemma run_hints_spent fuel config b es :
  forall s s',
    hintSpent config s -> run fuel config b es s = Ok s' ->
    hints s' = (hints s ++ repeat None (renders es))%list.
Proof.
  induction es as [|e es IH]; intros s s' Hsp; simpl.
  - intros [= <-]. now rewrite app_nil_r.
  - destruct (step fuel config b e s) as [s1| |] eqn:E; simpl; try discriminate.
    intros Hrun. destruct e as [key typed|h|]; simpl in E.
    + destruct (keypress_frame _ _ _ _ _ _ E) as [Hfr [Hh _]]. simpl in Hfr, Hh.
      rewrite <- Hh. apply (IH s1 s'); [|exact Hrun].
      unfold hintSpent in *. now rewrite Hfr.
    + injection E as <-.
      assert (Hfire : firstRender (fire h s) = firstRender s /\
                      hints (fire h s) = hints s)
        by (unfold fire; destruct (find _ _); auto).
      destruct Hfire as [Hfr Hh]. rewrite <- Hh.
      apply (IH (fire h s) s'); [|exact Hrun].
      unfold hintSpent in *. now rewrite Hfr.
    + injection E as <-. unfold renders. simpl. fold (renders es).
      rewrite (IH (render config s) s'); [| |exact Hrun].
      * simpl. rewrite (helpTip_spent _ _ Hsp). now rewrite <- app_assoc.
      * unfold hintSpent, render in *. simpl. rewrite (helpTip_spent _ _ Hsp).
        exact Hsp.
Qed.

Lemma run_hints_first fuel config b es :
  forall s s',
    firstRender s = true -> run fuel config b es s = Ok s' ->
    hints s' = (hints s ++
                match renders es with
                | O => []
                | S later => firstHint config :: repeat None later
                end)%list.
Proof.
  induction es as [|e es IH]; intros s s' Hfirst; simpl.
  - intros [= <-]. now rewrite app_nil_r.
  - destruct (step fuel config b e s) as [s1| |] eqn:E; simpl; try discriminate.
    intros Hrun. destruct e as [key typed|h|]; simpl in E.
    + destruct (keypress_frame _ _ _ _ _ _ E) as [Hfr [Hh _]]. simpl in Hfr, Hh.
      rewrite <- Hh. apply (IH s1 s'); [|exact Hrun]. now rewrite Hfr.
    + injection E as <-.
      assert (Hfire : firstRender (fire h s) = firstRender s /\
                      hints (fire h s) = hints s)
        by (unfold fire; destruct (find _ _); auto).
      destruct Hfire as [Hfr Hh]. rewrite <- Hh.
      apply (IH (fire h s) s'); [|exact Hrun]. now rewrite Hfr.
    + injection E as <-. unfold renders. simpl. fold (renders es).
      rewrite (run_hints_spent fuel config b es (render config s) s');
        [| |exact Hrun].
      * simpl. rewrite (helpTip_first config s Hfirst).
        now rewrite <- app_assoc.
      * unfold hintSpent, render. simpl.
        rewrite (helpTip_first config s Hfirst).
        destruct (firstHint config); auto.
Qed.

(** The log of the hints of the renders, from construction on. *)
Lemma run_hints_from_construct fuel config b s0 es s :
  construct config = Ok (b, s0) ->
  run fuel config b es s0 = Ok s ->
  hints s =
    match renders es with
    | O => []
    | S later => firstHint config :: repeat None later
    end.
Proof.
  intros Hc Hrun.
  destruct (construct_owned _ _ _ Hc) as [_ [Hfirst Hnil]].
  rewrite (run_hints_first _ _ _ _ _ _ Hfirst Hrun), Hnil. reflexivity.
Qed.

(** The first-render flag is up until the first render, and the hint is spent
    from then on. *)
Lemma run_firstRender fuel config b es :
  forall s s',
    run fuel config b es s = Ok s' ->
    (hintSpent config s -> hintSpent config s') /\
    match renders es with
    | O => firstRender s' = firstRender s
    | S _ => hintSpent config s'
    end.
Proof.
  induction es as [|e es IH]; intros s s'; simpl.
  - intros [= <-]. auto.
  - destruct (step fuel config b e s) as [s1| |] eqn:E; simpl; try discriminate.
    intros Hrun. destruct (IH s1 s' Hrun) as [Hkeep Hcount].
    destruct e as [key typed|h|]; simpl in E.
    + destruct (keypress_frame _ _ _ _ _ _ E) as [Hfr _]. simpl in Hfr.
      unfold renders in *. simpl. unfold hintSpent in *.
      rewrite <- Hfr. split; [exact Hkeep|].
      destruct (List.length _); [congruence | exact Hcount].
    + injection E as <-.
      assert (Hfr : firstRender (fire h s) = firstRender s)
        by (unfold fire; destruct (find _ _); auto).
      unfold renders in *. simpl. unfold hintSpent in *.
      rewrite <- Hfr. split; [exact Hkeep|].
      destruct (List.length _); [congruence | exact Hcount].
    + injection E as <-.
      assert (Hspent : hintSpent config (render config s)).
      { unfold hintSpent, render, helpTip, firstHint. simpl.
        destruct (firstRender s); simpl; auto.
        destruct (len (choices config) <=? pageSize_of config); auto. }
      split; [intros _; exact (Hkeep Hspent)|].
      unfold renders. simpl. exact (Hkeep Hspent).
Qed.

(** *** Enter, and keys after it *)

Lemma clearTimeout_setStatus h st s :
  clearTimeout h (setStatus st s) = setStatus st (clearTimeout h s).
Proof. destruct h; reflexivity. Qed.

(** C4, as the handler has it.  Enter in a pending prompt calls [done] once,
    with the value of the item at the active index, and sets the status to
    done, leaving the active index.  The handler never reads the status: a
    key it is given after that is handled as in a pending prompt, the status
    staying done. *)
Theorem enter_emits_then_done fuel config b s item :
  status s = pending ->
  at_index (choices config) (active s) = Some item ->
  exists s',
    keypress fuel config b KeyEnter s = Ok s' /\
    status s' = done /\
    active s' = active s /\
    emitted s' = (emitted s ++ [item_value item])%list /\
    (forall key t t',
        keypress fuel config b key t = Ok t' ->
        status t' = match key with KeyEnter => done | _ => status t end) /\
    (forall key t,
        keypress fuel config b key (setStatus done t)
        = (t' <- keypress fuel config b key t ;; Ok (setStatus done t'))).
Proof.
  intros _ Hitem. unfold keypress at 1. rewrite active_clearTimeout, Hitem.
  eexists; split; [reflexivity|]. simpl.
  rewrite active_clearTimeout, emitted_clearTimeout. clear Hitem.
  repeat split.
  - intros key t t'. unfold keypress.
    pose proof (status_clearTimeout (searchTimeoutRef t) t) as Hst.
    destruct key as [| | |n| |]; simpl.
    + destruct (at_index _ _); simpl; [|discriminate]. now intros [= <-].
    + arrow_branch; intros [= <-]; exact Hst.
    + arrow_branch; intros [= <-]; exact Hst.
    + digit_branch; intros [= <-]; exact Hst.
    + intros [= <-]; exact Hst.
    + intros [= <-]. destruct (findIndex _ _ >=? 0); exact Hst.
  - intros key t. unfold keypress. simpl searchTimeoutRef.
    rewrite clearTimeout_setStatus.
    destruct key as [| | |n| |]; simpl.
    + destruct (at_index _ _); reflexivity.
    + arrow_branch; reflexivity.
    + arrow_branch; reflexivity.
    + digit_branch; reflexivity.
    + reflexivity.
    + destruct (findIndex _ _ >=? 0); reflexivity.
Qed.

(** ** Further properties of the selection engine *)

(** *** The bounds are the extreme selectable indices *)

(** X1. The bounds that [bounds] returns are the extreme selectable indices:
    [first] and [last] are indices of the list that hold selectable items,
    [first <= last], and every selectable index lies between them, so [first]
    is the least and [last] the greatest selectable index. *)
Theorem bounds_extremal items b :
  bounds items = Ok b ->
  0 <= first b /\ first b <= last b /\ last b < len items /\
  selectableAt items (first b) = true /\
  selectableAt items (last b) = true /\
  forall i, selectableAt items i = true -> first b <= i <= last b.
Proof.
  intros Hb. pose proof (bounds_Ok_hasSelectable _ _ Hb) as Hsel.
  destruct (bounds_found _ Hsel) as [b' [Hb' [Hf [Hl Hext]]]].
  assert (b' = b) by congruence. subst b'.
  pose proof (selectableAt_range _ _ Hf) as Hrf.
  pose proof (selectableAt_range _ _ Hl) as Hrl.
  destruct (Hext _ Hf) as [_ Hfl].
  repeat split; try lia; try assumption; apply Hext; assumption.
Qed.

(** *** Arrow keys *)

Lemma keypress_arrow_eq fuel config b key s :
  key = KeyUp \/ key = KeyDown ->
  keypress fuel config b key s =
  if mayMove config b key s
  then r <- skip fuel (choices config) (direction key) (active s) 0 ;;
       Ok (setActive (fst r) (clearLine (clearTimeout (searchTimeoutRef s) s)))
  else Ok (clearLine (clearTimeout (searchTimeoutRef s) s)).
Proof.
  intros [-> | ->]; unfold keypress, mayMove; simpl;
    rewrite !active_clearTimeout;
    destruct (loop_of config); simpl; try reflexivity;
    rewrite ?orb_false_r; reflexivity.
Qed.

(** When the guard lets the move through, the handler lands on the first
    selectable index in the key's direction. *)
Lemma arrow_lands fuel config b key s :
  hasSelectable (choices config) = true ->
  (List.length (choices config) <= fuel)%nat ->
  0 <= active s < len (choices config) ->
  key = KeyUp \/ key = KeyDown ->
  mayMove config b key s = true ->
  exists k,
    (1 <= k <= List.length (choices config))%nat /\
    keypress fuel config b key s
    = Ok (setActive (reached (choices config) (direction key) (active s) k)
            (clearLine (clearTimeout (searchTimeoutRef s) s))) /\
    selectableAt (choices config)
      (reached (choices config) (direction key) (active s) k) = true /\
    (forall j, (1 <= j < k)%nat ->
       selectableAt (choices config)
         (reached (choices config) (direction key) (active s) j) = false).
Proof.
  intros Hsel Hfuel Hact Hkey Hmove.
  assert (Hoff : direction key = 1 \/ direction key = -1)
    by (destruct Hkey; subst key; simpl; auto).
  destruct (skip_from_active fuel (choices config) (direction key) (active s)
              Hsel Hoff Hact Hfuel) as [k [Hk [Hskip [Hat Hmin]]]].
  exists k. split; [exact Hk|]. split; [|split; assumption].
  rewrite (keypress_arrow_eq fuel config b key s Hkey), Hmove, Hskip.
  reflexivity.
Qed.

(** A selectable index ahead in the direction of travel stops the walk at or
    before it, without wrapping. *)
Lemma walk_stops_before items offset start target k :
  offset = 1 \/ offset = -1 ->
  0 <= start < len items ->
  selectableAt items target = true ->
  0 < (target - start) * offset ->
  (forall j, (1 <= j < k)%nat ->
             selectableAt items (reached items offset start j) = false) ->
  (1 <= k)%nat ->
  Z.of_nat k <= (target - start) * offset /\
  reached items offset start k = start + Z.of_nat k * offset.
Proof.
  intros Hoff Hstart Htarget Hahead Hmin Hk.
  pose proof (selectableAt_range _ _ Htarget) as Hrange.
  set (d := (target - start) * offset) in *.
  assert (Hd : reached items offset start (Z.to_nat d) = target).
  { unfold reached. rewrite Z2Nat.id by lia.
    replace (start + d * offset) with target
      by (unfold d; destruct Hoff; subst offset; lia).
    apply Z.mod_small. lia. }
  assert (Hle : Z.of_nat k <= d).
  { destruct (Z_le_gt_dec (Z.of_nat k) d) as [L|G]; [exact L|].
    rewrite <- Hd in Htarget. rewrite Hmin in Htarget by lia. discriminate. }
  split; [exact Hle|].
  unfold reached. apply Z.mod_small.
  unfold d in *. destruct Hoff; subst offset; lia.
Qed.

Lemma arrow_without_loop fuel config b key s :
  bounds (choices config) = Ok b ->
  loop_of config = false ->
  (List.length (choices config) <= fuel)%nat ->
  selectableAt (choices config) (active s) = true ->
  key = KeyUp \/ key = KeyDown ->
  exists s',
    keypress fuel config b key s = Ok s' /\
    selectableAt (choices config) (active s') = true /\
    match key with
    | KeyUp => first b <= active s' <= active s /\
               (active s <> first b -> active s' < active s)
    | _ => active s <= active s' <= last b /\
           (active s <> last b -> active s < active s')
    end.
Proof.
  intros Hb Hloop Hfuel Hinv Hkey.
  pose proof (bounds_Ok_hasSelectable _ _ Hb) as Hsel.
  destruct (bounds_found _ Hsel) as [b' [Hb' [Hf [Hl Hext]]]].
  assert (b' = b) by congruence. subst b'.
  pose proof (selectableAt_range _ _ Hinv) as Hact.
  destruct (Hext _ Hinv) as [Hlo Hhi].
  destruct (mayMove config b key s) eqn:Hmove.
  - destruct (arrow_lands fuel config b key s Hsel Hfuel Hact Hkey Hmove)
      as [k [Hk [Hkp [Hat Hmin]]]].
    eexists. split; [exact Hkp|]. simpl. split; [exact Hat|].
    unfold mayMove in Hmove. rewrite Hloop in Hmove. simpl in Hmove.
    apply negb_true_iff, Z.eqb_neq in Hmove.
    destruct Hkey; subst key; simpl in *.
    + destruct (walk_stops_before (choices config) (-1) (active s) (first b) k
                  (or_intror eq_refl) Hact Hf ltac:(lia) Hmin ltac:(lia))
        as [Hle Hre].
      rewrite Hre. lia.
    + destruct (walk_stops_before (choices config) 1 (active s) (last b) k
                  (or_introl eq_refl) Hact Hl ltac:(lia) Hmin ltac:(lia))
        as [Hle Hre].
      rewrite Hre. lia.
  - rewrite (keypress_arrow_eq fuel config b key s Hkey), Hmove.
    eexists. split; [reflexivity|]. simpl. rewrite active_clearTimeout.
    split; [exact Hinv|].
    unfold mayMove in Hmove. rewrite Hloop in Hmove. simpl in Hmove.
    apply negb_false_iff, Z.eqb_eq in Hmove.
    destruct Hkey; subst key; simpl in *; split; lia.
Qed.

(** X2. Without [loop] an arrow key never wraps around: Up leaves the active
    index where it is or moves it to a smaller selectable index, not below
    [first]; Down leaves it or moves it to a greater one, not above [last];
    away from the bound on its side the key does move it. *)
Theorem no_loop_no_wrap fuel config b key s :
  bounds (choices config) = Ok b ->
  loop_of config = false ->
  (List.length (choices config) <= fuel)%nat ->
  selectableAt (choices config) (active s) = true ->
  key = KeyUp \/ key = KeyDown ->
  exists s',
    keypress fuel config b key s = Ok s' /\
    selectableAt (choices config) (active s') = true /\
    match key with
    | KeyUp => first b <= active s' <= active s /\
               (active s <> first b -> active s' < active s)
    | _ => active s <= active s' <= last b /\
           (active s <> last b -> active s < active s')
    end.
Proof. exact (arrow_without_loop fuel config b key s). Qed.

Lemma reached_back items offset start k j :
  offset = 1 \/ offset = -1 ->
  0 <= start < len items ->
  (j <= k)%nat ->
  reached items (- offset) (reached items offset start k) j
  = reached items offset start (k - j).
Proof.
  intros Hoff Hstart Hj. unfold reached.
  rewrite Z.add_mod_idemp_l by lia. f_equal.
  rewrite Nat2Z.inj_sub by lia. lia.
Qed.

Lemma reached_zero items offset start :
  0 <= start < len items -> reached items offset start 0 = start.
Proof.
  intros H. unfold reached. simpl. rewrite Z.add_0_r. apply Z.mod_small. lia.
Qed.

Lemma direction_opposite key :
  key = KeyUp \/ key = KeyDown -> direction (opposite key) = - direction key.
Proof. intros [-> | ->]; reflexivity. Qed.

(** X3. An arrow key that is let through, followed by the opposite arrow
    key, brings the active index back where it was. *)
Theorem arrow_round_trip fuel config b key s :
  bounds (choices config) = Ok b ->
  (List.length (choices config) <= fuel)%nat ->
  selectableAt (choices config) (active s) = true ->
  key = KeyUp \/ key = KeyDown ->
  mayMove config b key s = true ->
  exists s1 s2,
    keypress fuel config b key s = Ok s1 /\
    keypress fuel config b (opposite key) s1 = Ok s2 /\
    active s2 = active s.
Proof.
  intros Hb Hfuel Hinv Hkey Hmove.
  pose proof (bounds_Ok_hasSelectable _ _ Hb) as Hsel.
  destruct (bounds_found _ Hsel) as [b' [Hb' [Hf [Hl Hext]]]].
  assert (b' = b) by congruence. subst b'.
  pose proof (selectableAt_range _ _ Hinv) as Hact.
  destruct (Hext _ Hinv) as [Hlo Hhi].
  assert (Hoff : direction key = 1 \/ direction key = -1)
    by (destruct Hkey; subst key; simpl; auto).
  assert (Hkey' : opposite key = KeyUp \/ opposite key = KeyDown)
    by (destruct Hkey; subst key; simpl; auto).
  destruct (arrow_lands fuel config b key s Hsel Hfuel Hact Hkey Hmove)
    as [k [Hk [Hkp [Hat Hmin]]]].
  set (a1 := reached (choices config) (direction key) (active s) k) in *.
  pose proof (selectableAt_range _ _ Hat) as Ha1.
  eexists. eexists. split; [exact Hkp|].
  rewrite (keypress_arrow_eq fuel config b (opposite key) _ Hkey').
  assert (Hmove' : mayMove config b (opposite key)
                     (setActive a1
                        (clearLine (clearTimeout (searchTimeoutRef s) s)))
                   = true).
  { unfold mayMove in *. destruct (loop_of config); [reflexivity|].
    simpl in *. apply negb_true_iff, Z.eqb_neq in Hmove.
    apply negb_true_iff, Z.eqb_neq.
    destruct Hkey; subst key; simpl in *.
    - destruct (walk_stops_before (choices config) (-1) (active s) (first b) k
                  (or_intror eq_refl) Hact Hf ltac:(lia) Hmin ltac:(lia))
        as [Hle Hre].
      fold a1 in Hre. lia.
    - destruct (walk_stops_before (choices config) 1 (active s) (last b) k
                  (or_introl eq_refl) Hact Hl ltac:(lia) Hmin ltac:(lia))
        as [Hle Hre].
      fold a1 in Hre. lia. }
  rewrite Hmove'. simpl active.
  rewrite (direction_opposite key Hkey).
  assert (Hoff' : - direction key = 1 \/ - direction key = -1)
    by (destruct Hoff as [-> | ->]; auto).
  rewrite (skip_first_selectable (choices config) (- direction key) Hoff'
             fuel a1 O k Ha1).
  - simpl. split; [reflexivity|]. simpl. unfold a1.
    rewrite (reached_back (choices config) (direction key) (active s) k k
               Hoff Hact (Nat.le_refl k)).
    rewrite Nat.sub_diag. now apply reached_zero.
  - lia.
  - unfold a1.
    rewrite (reached_back (choices config) (direction key) (active s) k k
               Hoff Hact (Nat.le_refl k)).
    rewrite Nat.sub_diag, reached_zero; assumption.
  - intros j Hj. unfold a1.
    rewrite (reached_back (choices config) (direction key) (active s) k j
               Hoff Hact) by lia.
    apply Hmin. lia.
Qed.

Lemma reached_hit items offset start target :
  offset = 1 \/ offset = -1 ->
  0 <= start < len items ->
  0 <= target < len items ->
  reached items offset start
    (Z.to_nat (((target - start) * offset) mod len items)) = target.
Proof.
  intros Hoff Hstart Htarget. unfold reached.
  rewrite Z2Nat.id by (apply Z.mod_pos_bound; lia).
  rewrite <- Z.add_mod_idemp_r by lia.
  rewrite Z.mul_mod_idemp_l by lia.
  rewrite Z.add_mod_idemp_r by lia.
  replace (start + (target - start) * offset * offset) with target
    by (destruct Hoff; subst offset; lia).
  apply Z.mod_small. lia.
Qed.

(** Only a full turn of the list comes back to where the walk started. *)
Lemma reached_returns items offset start k :
  offset = 1 \/ offset = -1 ->
  0 <= start < len items ->
  (1 <= k <= List.length items)%nat ->
  reached items offset start k = start ->
  k = List.length items.
Proof.
  unfold reached, len. intros Hoff Hstart Hk Hback.
  destruct (Nat.eq_dec k (List.length items)) as [E|E]; [exact E|exfalso].
  set (n := Z.of_nat (List.length items)) in *.
  assert (Hkn : 1 <= Z.of_nat k < n) by (unfold n; lia).
  destruct Hoff; subst offset.
  - destruct (Z_lt_ge_dec (start + Z.of_nat k * 1) n) as [L|G].
    + rewrite Z.mod_small in Hback by lia. lia.
    + replace (start + Z.of_nat k * 1)
        with (start + Z.of_nat k - n + 1 * n) in Hback by lia.
      rewrite Z_mod_plus_full, Z.mod_small in Hback by lia. lia.
  - destruct (Z_lt_ge_dec (start + Z.of_nat k * -1) 0) as [L|G].
    + replace (start + Z.of_nat k * -1)
        with (start - Z.of_nat k + n + (-1) * n) in Hback by lia.
      rewrite Z_mod_plus_full, Z.mod_small in Hback by lia. lia.
    + rewrite Z.mod_small in Hback by lia. lia.
Qed.

(** X4. An arrow key that is let through leaves the active index where it is
    exactly when the active item is the only selectable item of the list;
    with another selectable item the key moves to a different one. *)
Theorem arrow_moves_unless_alone fuel config b key s :
  hasSelectable (choices config) = true ->
  (List.length (choices config) <= fuel)%nat ->
  selectableAt (choices config) (active s) = true ->
  key = KeyUp \/ key = KeyDown ->
  mayMove config b key s = true ->
  exists s',
    keypress fuel config b key s = Ok s' /\
    (active s' = active s <->
     forall i, selectableAt (choices config) i = true -> i = active s).
Proof.
  intros Hsel Hfuel Hinv Hkey Hmove.
  pose proof (selectableAt_range _ _ Hinv) as Hact.
  assert (Hoff : direction key = 1 \/ direction key = -1)
    by (destruct Hkey; subst key; simpl; auto).
  destruct (arrow_lands fuel config b key s Hsel Hfuel Hact Hkey Hmove)
    as [k [Hk [Hkp [Hat Hmin]]]].
  eexists. split; [exact Hkp|]. simpl. split.
  - intros Hsame i Hi.
    pose proof (reached_returns (choices config) (direction key) (active s) k
                  Hoff Hact Hk Hsame) as Hfull.
    pose proof (selectableAt_range _ _ Hi) as Hri.
    destruct (Z.eq_dec i (active s)) as [E|E]; [exact E|exfalso].
    pose proof (reached_hit (choices config) (direction key) (active s) i
                  Hoff Hact Hri) as Hhit.
    set (d := ((i - active s) * direction key) mod len (choices config)) in *.
    assert (Hd : 0 <= d < len (choices config))
      by (apply Z.mod_pos_bound; lia).
    assert (Hd0 : d <> 0).
    { intros E0. rewrite E0 in Hhit. simpl in Hhit.
      rewrite reached_zero in Hhit by assumption. congruence. }
    rewrite <- Hhit in Hi. rewrite Hmin in Hi; [discriminate|].
    unfold len in Hd. lia.
  - intros Halone. now apply Halone.
Qed.

(** *** Only Enter resolves the prompt *)

Lemma keypress_emitted fuel config b key s s' :
  keypress fuel config b key s = Ok s' ->
  match key with
  | KeyEnter =>
      exists item,
        at_index (choices config) (active s) = Some item /\
        emitted s' = (emitted s ++ [item_value item])%list /\
        status s' = done
  | _ => emitted s' = emitted s /\ status s' = status s
  end.
Proof.
  pose proof (emitted_clearTimeout (searchTimeoutRef s) s) as He.
  pose proof (status_clearTimeout (searchTimeoutRef s) s) as Hst.
  unfold keypress. destruct key as [| | |n| |]; simpl.
  - rewrite active_clearTimeout.
    destruct (at_index (choices config) (active s)) as [item|];
      [|discriminate].
    intros [= <-]. exists item. simpl. rewrite He. auto.
  - arrow_branch; intros [= <-]; auto.
  - arrow_branch; intros [= <-]; auto.
  - digit_branch; intros [= <-]; auto.
  - intros [= <-]; auto.
  - intros [= <-]. destruct (findIndex _ _ >=? 0); auto.
Qed.

Lemma selectable_item_value items i item :
  at_index items i = Some item -> isSelectable item = true ->
  selectableValue items (item_value item).
Proof.
  intros Hat Hit. destruct item as [sep|c]; [discriminate|].
  exists i, c. auto.
Qed.

Lemma run_emitted fuel config b es :
  hasSelectable (choices config) = true ->
  (List.length (choices config) <= fuel)%nat ->
  forall s s',
    selectableAt (choices config) (active s) = true ->
    run fuel config b es s = Ok s' ->
    List.length (emitted s') = (List.length (emitted s) + enters es)%nat /\
    (Forall (selectableValue (choices config)) (emitted s) ->
     Forall (selectableValue (choices config)) (emitted s')) /\
    status s' = match enters es with O => status s | S _ => done end.
Proof.
  intros Hsel Hfuel. induction es as [|e es IH]; intros s s' Hinv; simpl.
  - intros [= <-]. unfold enters. simpl. split; [lia|]. auto.
  - destruct (step_selectable fuel config b e s Hsel Hfuel Hinv)
      as [s1 [Hstep Hinv1]].
    rewrite Hstep. simpl. intros Hrun.
    destruct (IH s1 s' Hinv1 Hrun) as [Hlen [Hall Hst]].
    destruct e as [key typed|h|].
    + simpl in Hstep. apply keypress_emitted in Hstep.
      destruct key; unfold enters in *; simpl in *;
        try (destruct Hstep as [He Hs]; rewrite He, Hs in *; auto).
      destruct Hstep as [item [Hat [He Hs]]].
      rewrite He, Hs in *. rewrite length_app in Hlen. simpl in Hlen.
      split; [lia|]. split.
      * intros Hold. apply Hall. apply Forall_app. split; [exact Hold|].
        constructor; [|constructor].
        apply selectableAt_true in Hinv as [item' [Hat' Hit]].
        assert (item' = item) by congruence. subst item'.
        eapply selectable_item_value; eauto.
      * rewrite Hst. now destruct (List.length (filter _ es)).
    + simpl in Hstep. injection Hstep as <-.
      assert (Hfire : emitted (fire h s) = emitted s /\
                      status (fire h s) = status s)
        by (unfold fire; destruct (find _ _); auto).
      destruct Hfire as [He Hs]. unfold enters in *. simpl.
      rewrite He, Hs in *. auto.
    + simpl in Hstep. injection Hstep as <-.
      unfold enters in *. simpl in *. auto.
Qed.

(** X5. Over any sequence of events after construction, [done] has been
    called once per Enter key and with nothing but values of selectable
    choices of the list, and the status is done exactly when an Enter key
    was among the events. *)
Theorem resolves_only_on_enter fuel config b s0 es s :
  construct config = Ok (b, s0) ->
  (List.length (choices config) <= fuel)%nat ->
  run fuel config b es s0 = Ok s ->
  List.length (emitted s) = enters es /\
  Forall (selectableValue (choices config)) (emitted s) /\
  status s = match enters es with O => pending | S _ => done end.
Proof.
  intros Hc Hfuel Hrun.
  assert (Hsel : hasSelectable (choices config) = true).
  { unfold construct in Hc.
    destruct (bounds (choices config)) as [b'| |] eqn:Hb; try discriminate.
    exact (bounds_Ok_hasSelectable _ _ Hb). }
  destruct (construct_selectable config Hsel) as [b' [s0' [Hc' [_ Hinv]]]].
  assert (E : (b', s0') = (b, s0)) by congruence.
  injection E as -> ->.
  destruct (run_emitted fuel config b es Hsel Hfuel s0 s Hinv Hrun)
    as [Hlen [Hall Hst]].
  assert (Hstart : emitted s0 = [] /\ status s0 = pending).
  { unfold construct in Hc. destruct (bounds (choices config)); try discriminate.
    simpl in Hc. injection Hc as _ <-. auto. }
  destruct Hstart as [He Hs]. rewrite He, Hs in *.
  split; [exact Hlen|]. split; [apply Hall; constructor | exact Hst].
Qed.

(** *** Search with an empty or an expired buffer *)

Lemma findIndexFrom_ext (p q : Item Value -> bool) items :
  (forall item, p item = q item) ->
  forall i, findIndexFrom p items i = findIndexFrom q items i.
Proof.
  intros Hpq. induction items as [|x items IH]; intros i; simpl;
    [reflexivity|].
  rewrite Hpq. destruct (q x); [reflexivity | apply IH].
Qed.

Lemma keypress_search fuel config b s :
  exists s',
    keypress fuel config b KeyOther s = Ok s' /\
    line s' = line s /\
    active s' =
      (let m := findIndex (searchMatches (toLowerCase (line s)))
                  (choices config) in
       if m >=? 0 then m else active s).
Proof.
  unfold keypress. rewrite line_clearTimeout.
  eexists. split; [reflexivity|]. simpl.
  destruct (findIndex _ _ >=? 0); simpl;
    rewrite ?line_clearTimeout, ?active_clearTimeout; auto.
Qed.

(** X6. A search key that finds the buffer empty (lowered) puts the active
    index on [first], the first selectable item of the list. *)
Theorem empty_search_goes_first fuel config b s :
  bounds (choices config) = Ok b ->
  toLowerCase (line s) = "" ->
  exists s',
    keypress fuel config b KeyOther s = Ok s' /\
    active s' = first b.
Proof.
  intros Hb Hline.
  destruct (keypress_search fuel config b s) as [s' [Hk [_ Ha]]].
  exists s'. split; [exact Hk|]. rewrite Ha, Hline. simpl.
  assert (Hsame : findIndex (searchMatches "") (choices config)
                  = findIndex isSelectable (choices config)).
  { unfold findIndex. apply findIndexFrom_ext.
    intros [sep|c]; simpl; [reflexivity|].
    destruct (truthy_disabled (disabled c)); simpl; [reflexivity|].
    now destruct (toLowerCase (label c)). }
  rewrite Hsame. unfold bounds in Hb.
  destruct (Z.ltb_spec (findIndex isSelectable (choices config)) 0) as [L|G];
    [discriminate|].
  injection Hb as <-. simpl.
  destruct (Z.geb_spec (findIndex isSelectable (choices config)) 0);
    [reflexivity | lia].
Qed.

(** X7. Once the pending search timer has fired, the buffer is empty and no
    timer is pending, and the next search key is matched on its own
    characters only: the active index becomes the least index of a selectable
    choice whose label starts with them, or stays when there is none. *)
Theorem search_after_expiry fuel config b s0 es s t typed :
  construct config = Ok (b, s0) ->
  run fuel config b es s0 = Ok s ->
  In t (timers s) ->
  exists s1 s2,
    step fuel config b (TimerFires (handle t)) s = Ok s1 /\
    line s1 = "" /\ timers s1 = [] /\ active s1 = active s /\
    step fuel config b (Keypress KeyOther typed) s1 = Ok s2 /\
    line s2 = typed /\
    ((exists i, labelMatchAt (choices config) typed i) ->
     labelMatchAt (choices config) typed (active s2) /\
     forall j, 0 <= j < active s2 ->
               ~ labelMatchAt (choices config) typed j) /\
    ((forall i, ~ labelMatchAt (choices config) typed i) ->
     active s2 = active s).
Proof.
  intros Hc Hrun Hin.
  assert (Hown : timersOwned s).
  { eapply run_owned; [|exact Hrun]. apply (construct_owned _ _ _ Hc). }
  destruct Hown as [Hnil | [t0 [Ht [_ [_ [_ Hcb]]]]]];
    [rewrite Hnil in Hin; contradiction|].
  rewrite Ht in Hin. destruct Hin as [<-|[]].
  assert (Hfire : fire (handle t0) s
                  = clearTimeout (Some (handle t0)) (clearLine s)
                    /\ timers (fire (handle t0) s) = []).
  { unfold fire. rewrite Ht. simpl. rewrite Nat.eqb_refl. simpl.
    rewrite Ht, Hcb. simpl. rewrite Nat.eqb_refl. auto. }
  destruct Hfire as [Hfire Hnone].
  exists (fire (handle t0) s). simpl.
  destruct (keypress_search fuel config b
              (setLine (line (fire (handle t0) s) ++ typed)
                 (fire (handle t0) s))) as [s2 [Hk [Hl Ha]]].
  exists s2. split; [reflexivity|].
  assert (Hline : line (fire (handle t0) s) = "")
    by (rewrite Hfire; reflexivity).
  assert (Hact : active (fire (handle t0) s) = active s)
    by (rewrite Hfire; reflexivity).
  rewrite Hline in *. simpl in Hl, Ha.
  split; [reflexivity|]. split; [exact Hnone|]. split; [exact Hact|].
  split; [exact Hk|]. split; [exact Hl|].
  destruct (search_findIndex (choices config) typed) as [Hsome Hno].
  simpl in Hsome, Hno. split.
  - intros Hex. destruct (Hsome Hex) as [[c [Hat Hrest]] Hmin].
    pose proof (at_index_Some_range _ _ _ Hat) as Hr.
    rewrite Ha.
    destruct (Z.geb_spec
                (findIndex (searchMatches (toLowerCase typed)) (choices config))
                0); [|lia].
    split; [exists c; auto | exact Hmin].
  - intros Hnone'. rewrite Ha, (Hno Hnone'). simpl. exact Hact.
Qed.

(** *** Holding an arrow key without [loop] *)

Lemma run_arrows_without_loop fuel config b key :
  bounds (choices config) = Ok b ->
  loop_of config = false ->
  (List.length (choices config) <= fuel)%nat ->
  key = KeyUp \/ key = KeyDown ->
  forall es s,
    Forall (pressOf key) es ->
    selectableAt (choices config) (active s) = true ->
    exists s',
      run fuel config b es s = Ok s' /\
      selectableAt (choices config) (active s') = true /\
      match key with
      | KeyUp =>
          first b <= active s' <= active s /\
          (active s' = first b \/
           active s' + Z.of_nat (List.length es) <= active s)
      | _ =>
          active s <= active s' <= last b /\
          (active s' = last b \/
           active s + Z.of_nat (List.length es) <= active s')
      end.
Proof.
  intros Hb Hloop Hfuel Hkey.
  pose proof (bounds_Ok_hasSelectable _ _ Hb) as Hsel.
  destruct (bounds_found _ Hsel) as [b' [Hb' [_ [_ Hext]]]].
  assert (b' = b) by congruence. subst b'.
  induction es as [|e es IH]; intros s Hall Hinv.
  - exists s. split; [reflexivity|]. split; [exact Hinv|].
    destruct (Hext _ Hinv). destruct Hkey; subst key; simpl; lia.
  - inversion Hall as [|e' es' [typed He] Hrest]; subst.
    simpl.
    destruct (arrow_without_loop fuel config b key
                (setLine (line s ++ typed) s) Hb Hloop Hfuel Hinv Hkey)
      as [s1 [Hk [Hinv1 Hstep]]].
    rewrite Hk. simpl.
    destruct (IH s1 Hrest Hinv1) as [s' [Hrun [Hinv' Hfar]]].
    exists s'. split; [exact Hrun|]. split; [exact Hinv'|].
    simpl active in Hstep.
    destruct Hkey; subst key; simpl in *.
    + destruct (Z.eq_dec (active s) (first b)); lia.
    + destruct (Z.eq_dec (active s) (last b)); lia.
Qed.

(** X8. Without [loop], as many presses of one arrow key as the list has
    items (or more) end on the bound of that side: Up on [first], Down on
    [last]. *)
Theorem no_loop_reaches_bound fuel config b key es s :
  bounds (choices config) = Ok b ->
  loop_of config = false ->
  (List.length (choices config) <= fuel)%nat ->
  key = KeyUp \/ key = KeyDown ->
  Forall (pressOf key) es ->
  (List.length (choices config) <= List.length es)%nat ->
  selectableAt (choices config) (active s) = true ->
  exists s',
    run fuel config b es s = Ok s' /\
    active s' = match key with KeyUp => first b | _ => last b end.
Proof.
  intros Hb Hloop Hfuel Hkey Hall Hmany Hinv.
  destruct (run_arrows_without_loop fuel config b key Hb Hloop Hfuel Hkey
              es s Hall Hinv) as [s' [Hrun [Hinv' Hfar]]].
  exists s'. split; [exact Hrun|].
  pose proof (selectableAt_range _ _ Hinv) as Hr.
  pose proof (selectableAt_range _ _ Hinv') as Hr'.
  unfold len in *.
  destruct Hkey; subst key; simpl in *; lia.
Qed.

(** *** The view *)

Context {terminal : Terminal Value}.

(** The parts of the header, with the hint or without it. *)
Lemma title_parts config s :
  title config s =
  chalk_gray S_BAR ++ newline ++ symbol (status s) ++ "  "
  ++ String.concat " "
       (filter truthy_string
          ([usePrefix; style_message (message config)]
           ++ match helpTip config s with Some tip => [tip] | None => [] end))
  ++ newline.
Proof. reflexivity. Qed.

Lemma view_Ok_header config s text s' :
  view config s = Ok (text, s') ->
  s' = render config s /\ exists rest, text = title config s ++ rest.
Proof.
  unfold view. destruct (usePagination _ _ _ _ _) as [page| |]; simpl;
    try discriminate.
  destruct (at_index _ _); [|discriminate].
  destruct (status s); intros [= <- <-]; (split; [reflexivity|]);
    eexists; reflexivity.
Qed.

(** C9. Over any sequence of events after construction, the header that the
    next render draws (the text of the render starts with it) is the bar,
    the status symbol and the non-empty ones of prefix, message and hint:
    the hint [(Use arrow keys)] is among them when no render came before and
    the number of items is at most the page size, and it is not among them
    at any later render nor when the items exceed the page size.  So is the
    record of the hints of the renders so far: the first has the hint exactly
    when the items fit the page, no later one has it. *)
Theorem help_hint_first_render_only fuel config b s0 es s :
  construct config = Ok (b, s0) ->
  run fuel config b es s0 = Ok s ->
  title config s =
    chalk_gray S_BAR ++ newline ++ symbol (status s) ++ "  "
    ++ String.concat " "
         (filter truthy_string
            ([usePrefix; style_message (message config)]
             ++ (if Nat.eqb (renders es) 0
                    && (len (choices config) <=? pageSize_of config)
                 then [style_help "(Use arrow keys)"]
                 else [])))
    ++ newline /\
  (forall text s',
      view config s = Ok (text, s') ->
      exists rest, text = title config s ++ rest) /\
  hints s =
    match renders es with
    | O => []
    | S later =>
        (if len (choices config) <=? pageSize_of config
         then Some (style_help "(Use arrow keys)")
         else None)
        :: repeat None later
    end.
Proof.
  intros Hc Hrun. split; [|split].
  - rewrite title_parts. do 6 f_equal.
    destruct (construct_owned _ _ _ Hc) as [_ [Hfirst _]].
    destruct (run_firstRender fuel config b es s0 s Hrun) as [_ Hcount].
    destruct (renders es); simpl.
    + rewrite Hfirst in Hcount. unfold helpTip. rewrite Hcount. simpl.
      destruct (len (choices config) <=? pageSize_of config); reflexivity.
    + now rewrite (helpTip_spent _ _ Hcount).
  - intros text s' Hview. now apply view_Ok_header in Hview.
  - exact (run_hints_from_construct fuel config b s0 es s Hc Hrun).
Qed.

(** X9. In every session reached from construction the item at the active
    index is a selectable choice, as the render function assumes when it
    reads [selectedChoice]: the render function returns (a text, and the
    state with its first-render flag updated) whenever [usePagination]
    returns, and it throws only what [usePagination] throws. *)
Theorem view_never_throws fuel config b s0 es s :
  construct config = Ok (b, s0) ->
  (List.length (choices config) <= fuel)%nat ->
  run fuel config b es s0 = Ok s ->
  (exists c, at_index (choices config) (active s) = Some (ChoiceItem c) /\
             isSelectable (ChoiceItem c) = true) /\
  (forall page,
      usePagination (choices config) (active s) renderItem
        (pageSize_of config) (loop_of config) = Ok page ->
      exists text, view config s = Ok (text, render config s)) /\
  (forall e,
      view config s = Throw e ->
      usePagination (choices config) (active s) renderItem
        (pageSize_of config) (loop_of config) = Throw e).
Proof.
  intros Hc Hfuel Hrun.
  assert (Hsel : hasSelectable (choices config) = true).
  { unfold construct in Hc.
    destruct (bounds (choices config)) as [b'| |] eqn:Hb; try discriminate.
    exact (bounds_Ok_hasSelectable _ _ Hb). }
  destruct (construct_selectable config Hsel) as [b' [s0' [Hc' [_ Hinv]]]].
  assert (E : (b', s0') = (b, s0)) by congruence.
  injection E as -> ->.
  destruct (run_selectable fuel config b es Hsel Hfuel s0 Hinv)
    as [s' [Hrun' Hinv']].
  assert (s' = s) by congruence. subst s'.
  apply selectableAt_true in Hinv' as [item [Hat Hit]].
  destruct item as [sep|c]; [discriminate|].
  split; [exists c; auto|]. unfold view. split.
  - intros page Hpage. rewrite Hpage. simpl. rewrite Hat.
    destruct (status s); eexists; reflexivity.
  - intros e. destruct (usePagination _ _ _ _ _) as [page| |]; simpl.
    + rewrite Hat. destruct (status s); discriminate.
    + now intros [= ->].
    + discriminate.
Qed.

(** X10. Enter on a choice calls [done] with the value of that choice, and
    the render that follows, once past [usePagination], is the title and one
    line with the answer, which is the label of that same choice (its name,
    else its stringified value), the string type-ahead search matches
    against. *)
Theorem done_frame_shows_label fuel config b s c :
  at_index (choices config) (active s) = Some (ChoiceItem c) ->
  exists s',
    keypress fuel config b KeyEnter s = Ok s' /\
    emitted s' = (emitted s ++ [value c])%list /\
    view config s'
    = (page <- usePagination (choices config) (active s') renderItem
                 (pageSize_of config) (loop_of config) ;;
       Ok (title config s' ++ chalk_gray S_BAR ++ " "
           ++ style_answer (label c),
           render config s')).
Proof.
  intros Hat. unfold keypress. rewrite active_clearTimeout, Hat.
  eexists. split; [reflexivity|]. simpl.
  rewrite emitted_clearTimeout. split; [reflexivity|].
  unfold view. simpl. rewrite active_clearTimeout, Hat. simpl.
  unfold label. destruct (name c) as [n|]; [destruct (truthy_string n)|];
    reflexivity.
Qed.

(** X11. What [renderItem] draws is decided by [isSelectable]: a selectable
    item is drawn behind the bar with the cursor glyph of its state and its
    label, highlighted when it is the active item; an item that is not
    selectable is drawn the same whether or not it is the active item, a
    separator as the bar and its text, a disabled choice in the disabled
    style with its label and its reason or [(disabled)], neither with a
    cursor glyph nor highlighted. *)
Theorem non_selectable_never_highlighted (item : Item Value) (isActive : bool) :
  (isSelectable item = true ->
   exists c,
     item = ChoiceItem c /\
     renderItem (Some item) isActive
     = Ok (chalk_cyan S_BAR ++ "  "
           ++ (if isActive
               then style_highlight (S_RADIO_ACTIVE ++ " " ++ label c)
               else S_RADIO_INACTIVE ++ " " ++ label c))) /\
  (isSelectable item = false ->
   renderItem (Some item) true = renderItem (Some item) false /\
   match item with
   | Separator separator =>
       renderItem (Some item) isActive
       = Ok (chalk_cyan S_BAR ++ "   " ++ separator)
   | ChoiceItem c =>
       renderItem (Some item) isActive
       = Ok (style_disabled
               (label c ++ " "
                ++ match disabled c with
                   | Some (DisabledReason reason) => reason
                   | _ => "(disabled)"
                   end))
   end).
Proof.
  destruct item as [sep|c]; simpl.
  - split; [discriminate | auto].
  - destruct (truthy_disabled (disabled c)); simpl; split;
      try discriminate; auto.
    intros _. exists c. split; [reflexivity|]. now destruct isActive.
Qed.

Lemma helpTip_after_render config s :
  helpTip config (render config s) = None.
Proof.
  unfold helpTip at 1. unfold render. simpl.
  unfold helpTip. destruct (firstRender s); simpl; [|reflexivity].
  destruct (len (choices config) <=? pageSize_of config); reflexivity.
Qed.

(** X12. Rendering again without an event in between gives the same text
    from the second render on: the only thing a render changes in what the
    next render draws is the help hint of the first render. *)
Theorem rerender_same_text config s text1 s1 text2 s2 text3 s3 :
  view config s = Ok (text1, s1) ->
  view config s1 = Ok (text2, s2) ->
  view config s2 = Ok (text3, s3) ->
  text2 = text3.
Proof.
  intros H1 H2 H3.
  apply view_Ok_header in H1 as [E1 _].
  apply view_Ok_header in H2 as E2. destruct E2 as [E2 _].
  assert (Htip1 : helpTip config s1 = None)
    by (rewrite E1; apply helpTip_after_render).
  assert (Htip2 : helpTip config s2 = None)
    by (rewrite E2; apply helpTip_after_render).
  assert (Hsame : active s2 = active s1 /\ status s2 = status s1)
    by (rewrite E2; auto).
  destruct Hsame as [Ha Hs].
  unfold view, title in H2, H3.
  rewrite Htip1 in H2. rewrite Htip2, Ha, Hs in H3.
  destruct (usePagination _ _ _ _ _) as [page| |]; simpl in *;
    try discriminate.
  destruct (at_index (choices config) (active s1)); [|discriminate].
  destruct (status s1); congruence.
Qed.

End Properties.

(** The list [Alpha, Bravo (disabled), Charlie] has bounds 0 and 2; a list of
    a disabled choice and a separator, and the empty list, are refused. *)
Lemma bounds_selectable_or_error_witness :
  (exists b s,
     bounds Sample.a_c = Ok b /\
     construct (Sample.config Sample.a_c None None) = Ok (b, s) /\
     first b <= last b /\
     selectableAt Sample.a_c (first b) = true /\
     selectableAt Sample.a_c (last b) = true) /\
  construct (Sample.config [Sample.off "x"; Separator "--"] None None)
    = Throw (ValidationError no_selectable_message) /\
  construct (Sample.config [] None None)
    = Throw (ValidationError no_selectable_message).
Proof.
  split; [|split].
  - apply (bounds_selectable_or_error Sample.JsValue (Sample.config Sample.a_c None None)).
    reflexivity.
  - apply (bounds_selectable_or_error Sample.JsValue
             (Sample.config [Sample.off "x"; Separator "--"] None None)).
    reflexivity.
  - apply (bounds_selectable_or_error Sample.JsValue (Sample.config [] None None)).
    reflexivity.
Defined.

(** From Alpha in [Alpha, Bravo (disabled), Charlie], going down, the loop
    runs twice and stops at Charlie. *)
Lemma skip_terminates_witness :
  exists next ran,
    (1 <= ran <= 3)%nat /\
    selectableAt Sample.a_c next = true /\
    forall fuel, (3 <= fuel)%nat ->
                 skip fuel Sample.a_c 1 0 0 = Ok (next, ran).
Proof.
  apply (skip_terminates Sample.JsValue Sample.a_c 1 0).
  - reflexivity.
  - left; reflexivity.
  - unfold len; simpl; lia.
Defined.

(** In [Alpha, Bravo (disabled), Charlie] the prompt starts on a selectable
    choice and every key keeps it on one. *)
Lemma active_always_selectable_witness :
  exists b s0,
    construct (Sample.config Sample.a_c None None) = Ok (b, s0) /\
    selectableAt Sample.a_c (active s0) = true /\
    (forall key s,
        selectableAt Sample.a_c (active s) = true ->
        exists s',
          keypress 3 (Sample.config Sample.a_c None None) b key s = Ok s' /\
          selectableAt Sample.a_c (active s') = true) /\
    (forall es,
        exists s,
          run 3 (Sample.config Sample.a_c None None) b es s0 = Ok s /\
          selectableAt Sample.a_c (active s) = true).
Proof.
  apply (active_always_selectable Sample.JsValue 3
           (Sample.config Sample.a_c None None)).
  - reflexivity.
  - simpl; lia.
Defined.

(** [Alpha, Bravo, Charlie] without [loop], active on Alpha: Up stays. *)
Lemma up_down_moves_witness :
  exists s',
    keypress 3 (Sample.config Sample.abc (Some false) None)
      {| first := 0; last := 2 |} KeyUp (Sample.session pending 0 "") = Ok s' /\
    active s' = 0.
Proof.
  destruct (up_down_moves Sample.JsValue 3
              (Sample.config Sample.abc (Some false) None)
              {| first := 0; last := 2 |} KeyUp (Sample.session pending 0 ""))
    as [s' [Hk [_ Hstay]]].
  - reflexivity.
  - simpl; lia.
  - unfold len; simpl; lia.
  - left; reflexivity.
  - exists s'. split; [exact Hk|]. apply Hstay. split; reflexivity.
Defined.

(** Enter on Alpha emits Alpha and ends in status done. *)
Lemma enter_emits_then_done_witness :
  exists s',
    keypress 3 (Sample.config Sample.abc None None)
      {| first := 0; last := 2 |} KeyEnter (Sample.session pending 0 "") = Ok s' /\
    status s' = done /\
    emitted s' = [Sample.JsString "Alpha"].
Proof.
  destruct (enter_emits_then_done Sample.JsValue 3
              (Sample.config Sample.abc None None)
              {| first := 0; last := 2 |} (Sample.session pending 0 "")
              (Sample.choice "Alpha"))
    as [s' [Hk [Hst [_ [Hem _]]]]].
  - reflexivity.
  - reflexivity.
  - exists s'. auto.
Defined.

(** Against C4 as stated: after Enter on Alpha the prompt is done; a Down key
    given to the handler then moves the active index to Bravo, and a second
    Enter emits Bravo. *)
Lemma keys_after_done_counterexample :
  exists b s0 s1 s2,
    construct (Sample.config Sample.abc None None) = Ok (b, s0) /\
    step 3 (Sample.config Sample.abc None None) b (Keypress KeyEnter "") s0
      = Ok s1 /\
    status s1 = done /\ active s1 = 0 /\
    emitted s1 = [Sample.JsString "Alpha"] /\
    run 3 (Sample.config Sample.abc None None) b
      [Keypress KeyDown ""; Keypress KeyEnter ""] s1 = Ok s2 /\
    active s2 = 1 /\
    emitted s2 = [Sample.JsString "Alpha"; Sample.JsString "Bravo"].
Proof.
  do 4 eexists. split; [reflexivity|]. split; [reflexivity|].
  split; [reflexivity|]. split; [reflexivity|]. split; [reflexivity|].
  split; [reflexivity|]. split; reflexivity.
Defined.

(** In [Alpha, Bravo, Charlie]: digit 2 goes to Bravo, digit 9 changes
    nothing; in [Alpha, Bravo (disabled), Charlie] digit 2 changes nothing. *)
Lemma digit_jump_witness :
  (exists s', keypress 3 (Sample.config Sample.abc None None)
                {| first := 0; last := 2 |} (KeyNumber 2)
                (Sample.session pending 0 "") = Ok s' /\ active s' = 1) /\
  (exists s', keypress 3 (Sample.config Sample.abc None None)
                {| first := 0; last := 2 |} (KeyNumber 9)
                (Sample.session pending 0 "") = Ok s' /\ active s' = 0) /\
  (exists s', keypress 3 (Sample.config Sample.a_c None None)
                {| first := 0; last := 2 |} (KeyNumber 2)
                (Sample.session pending 0 "") = Ok s' /\ active s' = 0).
Proof.
  split; [|split].
  - destruct (digit_jump Sample.JsValue 3 (Sample.config Sample.abc None None)
                {| first := 0; last := 2 |} 2 (Sample.session pending 0 ""))
      as [s' [Hk [Hjump _]]].
    exists s'. split; [exact Hk|]. apply Hjump; [unfold len; simpl; lia|reflexivity].
  - destruct (digit_jump Sample.JsValue 3 (Sample.config Sample.abc None None)
                {| first := 0; last := 2 |} 9 (Sample.session pending 0 ""))
      as [s' [Hk [_ [Hout _]]]].
    exists s'. split; [exact Hk|]. apply Hout. right. unfold len; simpl; lia.
  - destruct (digit_jump Sample.JsValue 3 (Sample.config Sample.a_c None None)
                {| first := 0; last := 2 |} 2 (Sample.session pending 0 ""))
      as [s' [Hk [_ [_ Hoff]]]].
    exists s'. split; [exact Hk|].
    apply (Hoff (Sample.off "Bravo")); reflexivity.
Defined.

(** Typing [B] in [Alpha, Bravo, Charlie] goes to Bravo, from Charlie too. *)
Lemma search_first_match_witness :
  exists s',
    keypress 3 (Sample.config Sample.abc None None)
      {| first := 0; last := 2 |} KeyOther (Sample.session pending 2 "B") = Ok s' /\
    labelMatchAt Sample.abc "B" (active s').
Proof.
  destruct (search_first_match Sample.JsValue 3
              (Sample.config Sample.abc None None)
              {| first := 0; last := 2 |} (Sample.session pending 2 "B"))
    as [s' [Hk [Hfound _]]].
  exists s'. split; [exact Hk|]. apply Hfound.
  exists 1. eexists. split; [reflexivity|]. split; reflexivity.
Defined.

(** With [default] the value of Charlie, the prompt starts on Charlie. *)
Lemma initial_active_witness :
  exists b s0,
    construct (Sample.config Sample.abc None (Some (Sample.JsString "Charlie")))
      = Ok (b, s0) /\
    valueMatchAt Sample.abc (Sample.JsString "Charlie") (active s0).
Proof.
  destruct (initial_active Sample.JsValue
              (Sample.config Sample.abc None (Some (Sample.JsString "Charlie"))))
    as [b [s0 [Hc [_ [Hdefault _]]]]].
  - reflexivity.
  - exists b, s0. split; [exact Hc|].
    apply (Hdefault (Sample.JsString "Charlie")); [reflexivity|].
    exists 2. eexists. split; [reflexivity|]. split; reflexivity.
Defined.

(** Two search keys in a row leave one timer pending. *)
Lemma one_search_timer_witness :
  exists s,
    run 3 (Sample.config Sample.abc None None) {| first := 0; last := 2 |}
      [Keypress KeyOther "b"; Keypress KeyOther "r"]
      (Sample.session pending 0 "") = Ok s /\
    (List.length (timers s) <= 1)%nat.
Proof.
  eexists. split; [reflexivity|].
  apply (one_search_timer Sample.JsValue 3 (Sample.config Sample.abc None None)
           {| first := 0; last := 2 |} (Sample.session pending 0 "")
           [Keypress KeyOther "b"; Keypress KeyOther "r"]);
    reflexivity.
Defined.

(** The header of the first render of a three-item list has the hint, the
    header of a render after two renders has not. *)
Lemma help_hint_first_render_only_witness :
  title (Sample.config Sample.abc None None) (Sample.session pending 0 "")
    = "|" ++ newline ++ "*  ? Pick one (Use arrow keys)" ++ newline /\
  exists s,
    run 3 (Sample.config Sample.abc None None) {| first := 0; last := 2 |}
      [Render; Keypress KeyDown ""; Render]
      (Sample.session pending 0 "") = Ok s /\
    title (Sample.config Sample.abc None None) s
      = "|" ++ newline ++ "*  ? Pick one" ++ newline /\
    hints s = [Some "(Use arrow keys)"; None].
Proof.
  split.
  - exact (proj1 (help_hint_first_render_only Sample.JsValue 3
                    (Sample.config Sample.abc None None)
                    {| first := 0; last := 2 |} (Sample.session pending 0 "")
                    [] (Sample.session pending 0 "") eq_refl eq_refl)).
  - destruct (run 3 (Sample.config Sample.abc None None)
                {| first := 0; last := 2 |}
                [Render; Keypress KeyDown ""; Render]
                (Sample.session pending 0 "")) as [s|e|] eqn:Hrun;
      [|vm_compute in Hrun; discriminate Hrun..].
    pose proof Hrun as Hval. vm_compute in Hval. injection Hval as Hval.
    subst s. eexists. split; [exact Hrun|].
    destruct (help_hint_first_render_only Sample.JsValue 3
                (Sample.config Sample.abc None None)
                {| first := 0; last := 2 |} (Sample.session pending 0 "")
                [Render; Keypress KeyDown ""; Render] _ eq_refl Hrun)
      as [Htitle [_ Hhints]].
    split; [exact Htitle | exact Hhints].
Defined.

(** ** Scenarios *)

(** [Alpha, Bravo (disabled), Charlie] with [loop]: Down from Alpha skips to
    Charlie, Down again wraps to Alpha. *)
Example down_skips_then_wraps :
  exists s1 s2,
    step 3 (Sample.config Sample.a_c None None) {| first := 0; last := 2 |}
      (Keypress KeyDown "") (Sample.session pending 0 "") = Ok s1 /\
    active s1 = 2 /\
    step 3 (Sample.config Sample.a_c None None) {| first := 0; last := 2 |}
      (Keypress KeyDown "") s1 = Ok s2 /\
    active s2 = 0.
Proof. do 2 eexists. repeat split. Qed.

(** Typing [b] goes to Bravo and leaves the buffer [b] with a timer pending;
    when the timer fires the buffer is empty and no timer is pending. *)
Example typed_then_expired :
  exists s1 s2,
    step 3 (Sample.config Sample.abc None None) {| first := 0; last := 2 |}
      (Keypress KeyOther "b") (Sample.session pending 0 "") = Ok s1 /\
    active s1 = 1 /\ line s1 = "b" /\ List.length (timers s1) = 1%nat /\
    step 3 (Sample.config Sample.abc None None) {| first := 0; last := 2 |}
      (TimerFires 0) s1 = Ok s2 /\
    active s2 = 1 /\ line s2 = "" /\ timers s2 = [].
Proof. do 2 eexists. repeat split. Qed.

(** With fewer fuel than turns needed the model reports the loop as still
    running, never a wrong index. *)
Example skip_out_of_fuel :
  skip 1 Sample.a_c 1 0 0 = Diverge.
Proof. reflexivity. Qed.

(** ** The further properties at work *)

(** In [Alpha, Bravo (disabled), Charlie] the bounds 0 and 2 hold selectable
    items and every selectable index is between them. *)
Lemma bounds_extremal_witness :
  0 <= 0 /\ 0 <= 2 /\ 2 < len Sample.a_c /\
  selectableAt Sample.a_c 0 = true /\
  selectableAt Sample.a_c 2 = true /\
  forall i, selectableAt Sample.a_c i = true -> 0 <= i <= 2.
Proof.
  exact (bounds_extremal Sample.JsValue Sample.a_c
           {| first := 0; last := 2 |} eq_refl).
Defined.

(** Without [loop], Down from Bravo in [Alpha, Bravo, Charlie] goes further
    down and not past the last item. *)
Lemma no_loop_no_wrap_witness :
  exists s',
    keypress 3 (Sample.config Sample.abc (Some false) None)
      {| first := 0; last := 2 |} KeyDown (Sample.session pending 1 "") = Ok s' /\
    1 < active s' <= 2.
Proof.
  destruct (no_loop_no_wrap Sample.JsValue 3
              (Sample.config Sample.abc (Some false) None)
              {| first := 0; last := 2 |} KeyDown (Sample.session pending 1 ""))
    as [s' [Hk [_ [Hin Hmoved]]]].
  - reflexivity.
  - reflexivity.
  - simpl; lia.
  - reflexivity.
  - right; reflexivity.
  - exists s'. split; [exact Hk|].
    assert (active (Sample.session pending 1 "") < active s')
      by (apply Hmoved; discriminate).
    simpl in *. lia.
Defined.

(** Down then Up from Alpha in [Alpha, Bravo (disabled), Charlie] is back on
    Alpha. *)
Lemma arrow_round_trip_witness :
  exists s1 s2,
    keypress 3 (Sample.config Sample.a_c None None)
      {| first := 0; last := 2 |} KeyDown (Sample.session pending 0 "") = Ok s1 /\
    keypress 3 (Sample.config Sample.a_c None None)
      {| first := 0; last := 2 |} KeyUp s1 = Ok s2 /\
    active s2 = 0.
Proof.
  apply (arrow_round_trip Sample.JsValue 3 (Sample.config Sample.a_c None None)
           {| first := 0; last := 2 |} KeyDown (Sample.session pending 0 "")).
  - reflexivity.
  - simpl; lia.
  - reflexivity.
  - right; reflexivity.
  - reflexivity.
Defined.

(** In [Alpha, Bravo (disabled), Charlie] Down from Alpha stays on Alpha only
    if Alpha is the only selectable item. *)
Lemma arrow_moves_unless_alone_witness :
  exists s',
    keypress 3 (Sample.config Sample.a_c None None)
      {| first := 0; last := 2 |} KeyDown (Sample.session pending 0 "") = Ok s' /\
    (active s' = 0 <->
     forall i, selectableAt Sample.a_c i = true -> i = 0).
Proof.
  apply (arrow_moves_unless_alone Sample.JsValue 3
           (Sample.config Sample.a_c None None)
           {| first := 0; last := 2 |} KeyDown (Sample.session pending 0 "")).
  - reflexivity.
  - simpl; lia.
  - reflexivity.
  - right; reflexivity.
  - reflexivity.
Defined.

(** Down then Enter resolves once, with the value of Bravo. *)
Lemma resolves_only_on_enter_witness :
  exists s,
    run 3 (Sample.config Sample.abc None None) {| first := 0; last := 2 |}
      [Keypress KeyDown ""; Keypress KeyEnter ""]
      (Sample.session pending 0 "") = Ok s /\
    List.length (emitted s) = 1%nat /\
    Forall (selectableValue Sample.abc) (emitted s) /\
    status s = done.
Proof.
  destruct (run 3 (Sample.config Sample.abc None None)
              {| first := 0; last := 2 |}
              [Keypress KeyDown ""; Keypress KeyEnter ""]
              (Sample.session pending 0 "")) as [s|e|] eqn:Hrun;
    [|vm_compute in Hrun; discriminate Hrun..].
  exists s. split; [reflexivity|].
  refine (resolves_only_on_enter Sample.JsValue 3
            (Sample.config Sample.abc None None)
            {| first := 0; last := 2 |} (Sample.session pending 0 "")
            [Keypress KeyDown ""; Keypress KeyEnter ""] s eq_refl _ Hrun).
  simpl; lia.
Defined.

(** A search key with an empty buffer, pressed on Charlie, goes to Alpha. *)
Lemma empty_search_goes_first_witness :
  exists s',
    keypress 3 (Sample.config Sample.abc None None)
      {| first := 0; last := 2 |} KeyOther (Sample.session pending 2 "") = Ok s' /\
    active s' = 0.
Proof.
  apply (empty_search_goes_first Sample.JsValue 3
           (Sample.config Sample.abc None None)
           {| first := 0; last := 2 |} (Sample.session pending 2 ""));
    reflexivity.
Defined.

(** After [b] and the expiry of its timer, typing [c] is matched as [c]. *)
Lemma search_after_expiry_witness :
  exists s s1 s2,
    run 3 (Sample.config Sample.abc None None) {| first := 0; last := 2 |}
      [Keypress KeyOther "b"] (Sample.session pending 0 "") = Ok s /\
    step 3 (Sample.config Sample.abc None None) {| first := 0; last := 2 |}
      (TimerFires 0) s = Ok s1 /\
    step 3 (Sample.config Sample.abc None None) {| first := 0; last := 2 |}
      (Keypress KeyOther "c") s1 = Ok s2 /\
    line s2 = "c".
Proof.
  destruct (run 3 (Sample.config Sample.abc None None)
              {| first := 0; last := 2 |}
              [Keypress KeyOther "b"]
              (Sample.session pending 0 "")) as [s|e|] eqn:Hrun;
    [|vm_compute in Hrun; discriminate Hrun..].
  assert (Hin : In {| handle := 0; delay := 700; callback := fun _ => "" |}
                  (timers s)).
  { vm_compute in Hrun. injection Hrun as <-. left; reflexivity. }
  destruct (search_after_expiry Sample.JsValue 3
              (Sample.config Sample.abc None None)
              {| first := 0; last := 2 |} (Sample.session pending 0 "")
              [Keypress KeyOther "b"] s
              {| handle := 0; delay := 700; callback := fun _ => "" |} "c"
              eq_refl Hrun Hin)
    as [s1 [s2 [Hfire [_ [_ [_ [Hkey [Hline _]]]]]]]].
  exists s, s1, s2. split; [reflexivity|]. auto.
Defined.

(** Without [loop], three presses of Down from Alpha end on Charlie. *)
Lemma no_loop_reaches_bound_witness :
  exists s',
    run 3 (Sample.config Sample.abc (Some false) None)
      {| first := 0; last := 2 |}
      [Keypress KeyDown ""; Keypress KeyDown ""; Keypress KeyDown ""]
      (Sample.session pending 0 "") = Ok s' /\
    active s' = 2.
Proof.
  apply (no_loop_reaches_bound Sample.JsValue 3
           (Sample.config Sample.abc (Some false) None)
           {| first := 0; last := 2 |} KeyDown
           [Keypress KeyDown ""; Keypress KeyDown ""; Keypress KeyDown ""]
           (Sample.session pending 0 "")).
  - reflexivity.
  - reflexivity.
  - simpl; lia.
  - right; reflexivity.
  - repeat constructor; exists ""; reflexivity.
  - simpl; lia.
  - reflexivity.
Defined.

(** After a Down key the view of [Alpha, Bravo, Charlie] is drawn. *)
Lemma view_never_throws_witness :
  exists s,
    run 3 (Sample.config Sample.abc None None) {| first := 0; last := 2 |}
      [Keypress KeyDown ""] (Sample.session pending 0 "") = Ok s /\
    exists text, view (Sample.config Sample.abc None None) s
                 = Ok (text, render (Sample.config Sample.abc None None) s).
Proof.
  destruct (run 3 (Sample.config Sample.abc None None)
              {| first := 0; last := 2 |}
              [Keypress KeyDown ""]
              (Sample.session pending 0 "")) as [s|e|] eqn:Hrun;
    [|vm_compute in Hrun; discriminate Hrun..].
  pose proof Hrun as Hval. vm_compute in Hval. injection Hval as Hval.
  subst s. eexists. split; [exact Hrun|].
  destruct (view_never_throws Sample.JsValue 3
              (Sample.config Sample.abc None None)
              {| first := 0; last := 2 |} (Sample.session pending 0 "")
              [Keypress KeyDown ""] _ eq_refl ltac:(simpl; lia) Hrun)
    as [_ [Hreturns _]].
  eapply Hreturns. reflexivity.
Defined.

(** Enter on Charlie emits Charlie and the answer line shows [Charlie]. *)
Lemma done_frame_shows_label_witness :
  exists s',
    keypress 3 (Sample.config Sample.abc None None)
      {| first := 0; last := 2 |} KeyEnter (Sample.session pending 2 "") = Ok s' /\
    emitted s' = [Sample.JsString "Charlie"] /\
    view (Sample.config Sample.abc None None) s'
    = Ok (title (Sample.config Sample.abc None None) s' ++ "| Charlie",
          render (Sample.config Sample.abc None None) s').
Proof.
  destruct (done_frame_shows_label Sample.JsValue 3
              (Sample.config Sample.abc None None)
              {| first := 0; last := 2 |} (Sample.session pending 2 "")
              {| value := Sample.JsString "Charlie"; name := Some "Charlie";
                 description := None; disabled := None |} eq_refl)
    as [s' [Hk [Hem Hview]]].
  pose proof Hk as Hval. vm_compute in Hval. injection Hval as Hval.
  subst s'. eexists. split; [exact Hk|]. split; [exact Hem|].
  rewrite Hview. reflexivity.
Defined.

(** The active Alpha is drawn with the cursor, the disabled Bravo without,
    active or not. *)
Lemma non_selectable_never_highlighted_witness :
  renderItem (Some (Sample.choice "Alpha")) true = Ok "|  > Alpha" /\
  renderItem (Some (Sample.off "Bravo")) true
    = renderItem (Some (Sample.off "Bravo")) false /\
  renderItem (Some (Sample.off "Bravo")) true = Ok "- Bravo (disabled)".
Proof.
  split.
  - destruct (proj1 (non_selectable_never_highlighted Sample.JsValue
                       (Sample.choice "Alpha") true) eq_refl)
      as [c [Hc Hdraw]].
    injection Hc as <-. exact Hdraw.
  - exact (proj2 (non_selectable_never_highlighted Sample.JsValue
                    (Sample.off "Bravo") true) eq_refl).
Defined.

(** The second and the third render of the fresh prompt are the same text. *)
Lemma rerender_same_text_witness :
  exists text1 s1 text2 s2 text3 s3,
    view (Sample.config Sample.abc None None) (Sample.session pending 0 "")
      = Ok (text1, s1) /\
    view (Sample.config Sample.abc None None) s1 = Ok (text2, s2) /\
    view (Sample.config Sample.abc None None) s2 = Ok (text3, s3) /\
    text1 <> text2 /\ text2 = text3.
Proof.
  do 6 eexists.
  split; [reflexivity|]. split; [reflexivity|]. split; [reflexivity|].
  split; [discriminate|].
  exact (rerender_same_text Sample.JsValue
           (Sample.config Sample.abc None None)
           (Sample.session pending 0 "") _ _ _ _ _ _ eq_refl eq_refl eq_refl).
Defined.

(** When [usePagination] throws, here for want of a page, so does the view. *)
Example view_throws_what_pagination_throws :
  view {| message := "Pick one"; choices := Sample.abc; pageSize := Some 0;
          loop := None; default := None |}
       (Sample.session pending 0 "")
  = Throw TypeError.
Proof. reflexivity. Qed.
